(** * dRep clustering engine ([drep_modules/d_cluster.py])

    A shallow embedding of the clustering module of dRep: the similarity
    graph builders ([make_graph], [make_graph_anin]), the connected-component
    clusterer ([cluster_graph]), the NUCmer delta parser ([parse_delta],
    [process_deltadir]), the two-tier driver ([cluster_genomes]), the
    generation of the NUCmer commands ([gen_nucmer_commands]) and the
    loading of the genome list ([load_genomes], [parse_arguments]).

    Conventions of the embedding:
    - a pandas DataFrame is the list of its rows, in row order, each row a
      record with one field per column;
    - a Python exception is a value of [exn]; a function that can raise
      returns a [result];
    - Python floats are used by the module only through [1 - x], [x / y]
      and [>]; they are represented by rationals in lowest terms, so
      rounding is not modelled;
    - everything read from the file system or produced by the external
      tools (MASH, NUCmer) is a field of the record [World]. *)

From Stdlib Require Import List String Ascii Bool Arith ZArith QArith Lia.
From Stdlib Require Import DecimalString DecimalNat Lqa.
Import ListNotations.
Close Scope Q_scope.
Close Scope Z_scope.
Open Scope nat_scope.
Open Scope string_scope.
Open Scope list_scope.

(** ** Exceptions *)

Inductive exn : Type :=
| IndexError
| ValueError
| KeyError (key : string)
| ZeroDivisionError
| NameError (name : string)
| UnboundLocalError (name : string).

Inductive result (A : Type) : Type :=
| Ok (a : A)
| Raise (e : exn).
Arguments Ok {A} a.
Arguments Raise {A} e.

Definition bind {A B : Type} (m : result A) (k : A -> result B) : result B :=
  match m with
  | Ok a => k a
  | Raise e => Raise e
  end.

Notation "x <- m ;; k" := (bind m (fun x => k))
  (at level 61, m at next level, right associativity).
Notation "' p <- m ;; k" := (bind m (fun x => let p := x in k))
  (at level 61, p pattern, m at next level, right associativity).

(** ** Columns and their [unique()] *)

Section Unique.
Context {A : Type} (eqb : A -> A -> bool).

Definition mem (x : A) (l : list A) : bool := existsb (eqb x) l.

(** [Series.unique()]: the distinct values in order of first appearance. *)
Fixpoint unique (l : list A) : list A :=
  match l with
  | [] => []
  | x :: t => x :: filter (fun y => negb (eqb x y)) (unique t)
  end.

End Unique.

Definition smem : string -> list string -> bool := mem String.eqb.
Definition sunique : list string -> list string := unique String.eqb.
Definition nunique : list nat -> list nat := unique Nat.eqb.

(** [a > b] on the values stored in a table. *)
Definition Qgtb (a b : Q) : bool :=
  match (a ?= b)%Q with
  | Gt => true
  | _ => false
  end.

(** ** networkx graphs

    [nx.Graph] keeps its nodes in insertion order and an undirected
    adjacency. Only node insertion and edge insertion are used by the
    module; the graph is the ordered node list and the list of inserted
    edges. *)

Record Graph : Type := mkGraph {
  nodes : list string;
  edges : list (string * string)
}.

Definition empty_graph : Graph := mkGraph [] [].

Definition addn (g : string) (ns : list string) : list string :=
  if smem g ns then ns else ns ++ [g].

(** [G.add_node(g)] *)
Definition add_node (g : string) (G : Graph) : Graph :=
  mkGraph (addn g (nodes G)) (edges G).

(** [G.add_edge(u, v)]: both end points become nodes when they are not. *)
Definition add_edge (u v : string) (G : Graph) : Graph :=
  mkGraph (addn v (addn u (nodes G))) (edges G ++ [(u, v)]).

(** [G[v]]: the neighbours of [v]; a self loop lists [v] itself. *)
Definition neighbors (G : Graph) (v : string) : list string :=
  flat_map (fun e : string * string =>
              if String.eqb (fst e) v then [snd e]
              else if String.eqb (snd e) v then [fst e] else [])
           (edges G).

(** The breadth-first traversal behind [nx.connected_components]
    ([_plain_bfs]): [seen] are the nodes yielded so far, [level] the next
    level; the loop ends when the level is empty. Python collects the
    nodes of a component in a set; here they are listed in the order of
    the traversal, and no statement below depends on that order. The
    fuel [plain_bfs] gives the loop is shown to be enough in
    [plain_bfs_spec]. *)
Fixpoint plain_bfs_loop (fuel : nat) (G : Graph) (seen level : list string)
  : list string :=
  match fuel with
  | O => seen
  | S fuel' =>
      match level with
      | [] => seen
      | _ :: _ =>
          let fresh := sunique (filter (fun v => negb (smem v seen)) level) in
          plain_bfs_loop fuel' G (seen ++ fresh) (flat_map (neighbors G) fresh)
      end
  end.

Definition plain_bfs (G : Graph) (source : string) : list string :=
  plain_bfs_loop (S (List.length (nodes G))) G [] [source].

(** [for v in G: if v not in seen: c = set(_plain_bfs(G, v)); yield c;
    seen.update(c)] *)
Fixpoint cc_loop (G : Graph) (vs seen : list string) : list (list string) :=
  match vs with
  | [] => []
  | v :: vs' =>
      if smem v seen then cc_loop G vs' seen
      else let c := plain_bfs G v in c :: cc_loop G vs' (seen ++ c)
  end.

Definition connected_components (G : Graph) : list (list string) :=
  cc_loop G (nodes G) [].

(** [nx.connected_component_subgraphs(G)]; only the node list of each
    subgraph is read by the caller. *)
Definition connected_component_subgraphs (G : Graph) : list (list string) :=
  connected_components G.

(** ** Tables *)

(** Mdb: one row of the MASH comparison table. *)
Record MdbRow : Type := mkMdbRow {
  genome1 : string;
  genome2 : string;
  dist : Q;
  p_value : Q;
  kmers : string;
  similarity : Q
}.

(** The output of [cluster_graph]: columns [cluster] and [genome]. *)
Record ClusterRow : Type := mkClusterRow {
  cr_cluster : nat;
  cr_genome : string
}.

(** The output of [process_deltadir]. *)
Record DeltaRow : Type := mkDeltaRow {
  querry : string;
  reference : string;
  alignment_length : Z;
  similarity_errors : Z;
  ref_coverage : Q;
  querry_coverage : Q;
  ani : Q
}.

(** Ndb: the rows of [process_deltadir] with the column [MASH_cluster]. *)
Record NdbRow : Type := mkNdbRow {
  n_row : DeltaRow;
  n_MASH_cluster : nat
}.

(** Cdb after MASH clustering: columns [MASH_cluster] and [genome]. *)
Record CdbRow : Type := mkCdbRow {
  MASH_cluster : nat;
  genome : string
}.

(** Cdb after ANIn clustering: [genome], [ANIn_cluster], [MASH_cluster]. *)
Record FinalRow : Type := mkFinalRow {
  f_genome : string;
  ANIn_cluster : string;
  f_MASH_cluster : nat
}.

(** ** Graph builders and the clusterer *)

Definition make_graph (df : list MdbRow) (threshold : Q) : Graph :=
  let G := fold_left (fun G g => add_node g G)
                     (sunique (map genome1 df)) empty_graph in
  fold_left (fun G row =>
               let sim := similarity row in
               if Qgtb sim threshold
               then add_edge (genome1 row) (genome2 row) G
               else G)
            df G.

Definition make_graph_anin (df : list DeltaRow) (cov_thresh anin_thresh : Q)
  : Graph :=
  let G := fold_left (fun G g => add_node g G)
                     (sunique (map reference df)) empty_graph in
  fold_left (fun G row =>
               if Qgtb (ref_coverage row) cov_thresh
                  && Qgtb (ani row) anin_thresh
               then add_edge (reference row) (querry row) G
               else G)
            df G.

Fixpoint cluster_graph_loop (sub_graphs : list (list string)) (cluster : nat)
  : list ClusterRow :=
  match sub_graphs with
  | [] => []
  | g :: rest =>
      map (mkClusterRow cluster) g ++ cluster_graph_loop rest (S cluster)
  end.

Definition cluster_graph (G : Graph) : list ClusterRow :=
  cluster_graph_loop (connected_component_subgraphs G) 0.

Definition cluster_database (db : list MdbRow) (threshold : Q) : list CdbRow :=
  let g := make_graph db threshold in
  let Cdb := cluster_graph g in
  map (fun r => mkCdbRow (cr_cluster r) (cr_genome r)) Cdb.

(** ** Strings, as the module uses them *)

Definition is_space (c : ascii) : bool :=
  let n := nat_of_ascii c in
  (((9 <=? n) && (n <=? 13)) || ((28 <=? n) && (n <=? 32)))%nat.

Definition snoc (s : string) (c : ascii) : string := s ++ String c "".

(** [s.strip().split()] *)
Fixpoint split_ws_aux (s cur : string) : list string :=
  match s with
  | "" => match cur with "" => [] | _ => [cur] end
  | String c s' =>
      if is_space c
      then match cur with
           | "" => split_ws_aux s' ""
           | _ => cur :: split_ws_aux s' ""
           end
      else split_ws_aux s' (snoc cur c)
  end.

Definition split_ws (s : string) : list string := split_ws_aux s "".

(** [s.startswith(pre)] *)
Definition startswith (pre s : string) : bool := String.prefix pre s.

(** [s.split(sep)] for a non-empty separator; [skip] counts the characters
    of a separator occurrence still to be passed over. *)
Fixpoint split_sep_aux (sep : string) (skip : nat) (s cur : string)
  : list string :=
  match s with
  | "" => [cur]
  | String c s' =>
      match skip with
      | S k => split_sep_aux sep k s' cur
      | O =>
          if String.prefix sep s
          then cur :: split_sep_aux sep (String.length sep - 1)%nat s' ""
          else split_sep_aux sep 0 s' (snoc cur c)
      end
  end.

Definition split_sep (sep s : string) : list string := split_sep_aux sep 0 s "".

(** [os.path.basename(p)], also [os.path.split(p)[-1]] *)
Fixpoint basename_aux (s cur : string) : string :=
  match s with
  | "" => cur
  | String c s' =>
      if Ascii.eqb c "/" then basename_aux s' "" else basename_aux s' (snoc cur c)
  end.

Definition basename (p : string) : string := basename_aux p "".

Fixpoint last_dot (s : string) : option (string * string) :=
  match s with
  | "" => None
  | String c s' =>
      match last_dot s' with
      | Some (a, b) => Some (String c a, b)
      | None => if Ascii.eqb c "." then Some ("", s) else None
      end
  end.

Fixpoint all_dots (s : string) : bool :=
  match s with
  | "" => true
  | String c s' => Ascii.eqb c "." && all_dots s'
  end.

(** [os.path.splitext(b)[0]] for a name without directory part. *)
Definition splitext_root (b : string) : string :=
  match last_dot b with
  | Some (root, _) => if all_dots root then b else root
  | None => b
  end.

Definition get_genome_name_from_fasta (fasta : string) : string :=
  hd "" (split_sep "." (basename fasta)).

Definition digit_of (c : ascii) : option Z :=
  let n := nat_of_ascii c in
  if ((48 <=? n) && (n <=? 57))%nat then Some (Z.of_nat (n - 48)) else None.

Fixpoint digits (s : string) (acc : Z) : option Z :=
  match s with
  | "" => Some acc
  | String c s' =>
      match digit_of c with
      | Some d => digits s' (10 * acc + d)%Z
      | None => None
      end
  end.

(** [int(tok)] for a token without white space: an optional sign and
    ASCII decimal digits; anything else is a [ValueError]. *)
Definition py_int (tok : string) : result Z :=
  let unsigned (s : string) : option Z :=
    match s with "" => None | _ => digits s 0%Z end in
  let r := match tok with
           | String c s' =>
               if Ascii.eqb c "-" then option_map Z.opp (unsigned s')
               else if Ascii.eqb c "+" then unsigned s'
               else unsigned tok
           | "" => None
           end in
  match r with
  | Some z => Ok z
  | None => Raise ValueError
  end.

(** ["{0}".format(n)] for a cluster number. *)
Definition string_of_nat (n : nat) : string :=
  NilEmpty.string_of_uint (Nat.to_uint n).

(** ["{0}_{1}".format(cluster, clust)] *)
Definition format_cluster (cluster clust : nat) : string :=
  string_of_nat cluster ++ "_" ++ string_of_nat clust.

(** ** Dictionaries keyed by genome name *)

Definition dict : Type := list (string * Z).

Fixpoint dict_get (k : string) (d : dict) : result Z :=
  match d with
  | [] => Raise (KeyError k)
  | (k', v) :: d' => if String.eqb k k' then Ok v else dict_get k d'
  end.

Fixpoint dict_set (k : string) (v : Z) (d : dict) : dict :=
  match d with
  | [] => [(k, v)]
  | (k', v') :: d' =>
      if String.eqb k k' then (k, v) :: d' else (k', v') :: dict_set k v d'
  end.

(** ** The delta parser *)

(** The loop of [parse_delta] over the split lines of the file. *)
Fixpoint parse_delta_loop (lines : list (list string)) (aln_length sim_errors : Z)
  : result (Z * Z) :=
  match lines with
  | [] => Ok (aln_length, sim_errors)
  | line :: rest =>
      match line with
      | [] => Raise IndexError
      | line0 :: _ =>
          if String.eqb line0 "NUCMER" || startswith ">" line0
          then parse_delta_loop rest aln_length sim_errors
          else if Nat.eqb (List.length line) 7
          then b <- py_int (nth 1 line "") ;;
               a <- py_int (nth 0 line "") ;;
               e <- py_int (nth 4 line "") ;;
               parse_delta_loop rest (aln_length + Z.abs (b - a))%Z
                                (sim_errors + e)%Z
          else parse_delta_loop rest aln_length sim_errors
      end
  end.

(** [parse_delta], on the lines of the file it opens. *)
Definition parse_delta (file_lines : list string) : result (Z * Z) :=
  parse_delta_loop (map split_ws file_lines) 0%Z 0%Z.

(** [x / y] with a float numerator. *)
Definition float_div (x : Z) (y : Z) : result Q :=
  if Z.eqb y 0 then Raise ZeroDivisionError
  else Ok (Qred (inject_Z x / inject_Z y)).

(** [qname, sname = ....split('_vs_')] *)
Definition unpack2 (l : list string) : result (string * string) :=
  match l with
  | [a; b] => Ok (a, b)
  | _ => Raise ValueError
  end.

(** A delta file found by [glob]: its path and its lines. *)
Definition DeltaFile : Type := (string * list string)%type.

(** [os.path.splitext(os.path.split(deltafile)[-1])[0].split('_vs_')],
    unpacked into [qname, sname]. *)
Definition delta_names (deltafile : string) : result (string * string) :=
  unpack2 (split_sep "_vs_" (splitext_root (basename deltafile))).

(** The body of the loop of [process_deltadir] for one file: the row it
    appends to [Table] and the new value of the flag [zero_error]. *)
Definition process_deltafile (f : DeltaFile) (org_lengths : dict)
  (zero_error : bool) : result (DeltaRow * bool) :=
  let '(deltafile, file_lines) := f in
  '(qname, sname) <- delta_names deltafile ;;
  '(tot_length, tot_sim_error) <- parse_delta file_lines ;;
  qlen <- dict_get qname org_lengths ;;
  query_cover <- float_div tot_length qlen ;;
  slen <- dict_get sname org_lengths ;;
  sbjct_cover <- float_div tot_length slen ;;
  let '(perc_id, zero_error) :=
    match float_div tot_sim_error tot_length with
    | Ok q => (Qred (1 - q), zero_error)
    | Raise _ => (0%Q, true)
    end in
  Ok (mkDeltaRow qname sname tot_length tot_sim_error
                 sbjct_cover query_cover perc_id,
      zero_error).

(** The loop of [process_deltadir]; the state is [Table] and the flag
    [zero_error]. *)
Fixpoint process_deltadir_loop (deltafiles : list DeltaFile) (org_lengths : dict)
  (Table : list DeltaRow) (zero_error : bool)
  : result (list DeltaRow * bool) :=
  match deltafiles with
  | [] => Ok (Table, zero_error)
  | f :: rest =>
      '(row, zero_error) <- process_deltafile f org_lengths zero_error ;;
      process_deltadir_loop rest org_lengths (Table ++ [row]) zero_error
  end.

(** [process_deltadir], on the files [glob] finds in [delta_dir]: the
    function returns [df] alone. *)
Definition process_deltadir (deltafiles : list DeltaFile) (org_lengths : dict)
  : result (list DeltaRow) :=
  '(Table, _) <- process_deltadir_loop deltafiles org_lengths [] false ;;
  Ok Table.

(** ** The two-tier driver *)

(** Bdb: columns [genome] and [location]. *)
Record BdbRow : Type := mkBdbRow {
  b_genome : string;
  location : string
}.

(** What the module reads after the external tools have run. *)
Record World : Type := mkWorld {
  (** the rows of [MASH_table.tsv]: genome1, genome2, dist, p, kmers *)
  mash_table_tsv : list (string * string * Q * Q * string);
  (** [glob.glob(delta_dir + '*.delta')], each path with the lines of the file *)
  glob_delta : string -> list DeltaFile;
  (** [dm.fasta_length] *)
  fasta_length : string -> Z
}.

(** [all_vs_all_MASH]: the sketching and distance commands are run by
    MASH; the function reads back the distance table. *)
Definition all_vs_all_MASH (W : World) (Bdb : list BdbRow) (data_folder : string)
  (dry : bool) : list MdbRow :=
  map (fun r : string * string * Q * Q * string =>
         let '(g1, g2, d, p, k) := r in
         mkMdbRow (get_genome_name_from_fasta g1)
                  (get_genome_name_from_fasta g2)
                  d p k (Qred (1 - d)))
      (mash_table_tsv W).

(** [pd.merge(Bdb, Cdb)]: inner join on the common column [genome]. *)
Definition merge_Bdb_Cdb (Bdb : list BdbRow) (Cdb : list CdbRow)
  : list (BdbRow * nat) :=
  flat_map (fun b =>
              map (fun c => (b, MASH_cluster c))
                  (filter (fun c => String.eqb (genome c) (b_genome b)) Cdb))
           Bdb.

(** The parsing loop of [run_anin_on_clusters]. [Ndb] starts as the
    [DataFrame()] without columns, which is [None]. *)
Fixpoint run_anin_loop (W : World) (ANIn_folder : string) (org_lengths : dict)
  (clusters : list nat) (Ndb : option (list NdbRow))
  : result (option (list NdbRow)) :=
  match clusters with
  | [] => Ok Ndb
  | cluster :: rest =>
      let outf := (ANIn_folder ++ string_of_nat cluster ++ "/")%string in
      data <- process_deltadir (glob_delta W outf) org_lengths ;;
      let data := map (fun r => mkNdbRow r cluster) data in
      run_anin_loop W ANIn_folder org_lengths rest
        (Some (match Ndb with Some rows => rows | None => [] end ++ data))
  end.

(** [run_anin_on_clusters]: the NUCmer commands are run by the worker
    pool; the function then parses the directory of every MASH cluster. *)
Definition run_anin_on_clusters (W : World) (Bdb : list BdbRow)
  (Cdb : list CdbRow) (data_folder : string) (dry : bool)
  : result (option (list NdbRow)) :=
  let ANIn_folder := (data_folder ++ "ANIn_files/")%string in
  let Bdb := merge_Bdb_Cdb Bdb Cdb in
  let org_lengths :=
    fold_left (fun d (r : BdbRow * nat) =>
                 dict_set (b_genome (fst r)) (fasta_length W (location (fst r))) d)
              Bdb [] in
  run_anin_loop W ANIn_folder org_lengths (nunique (map snd Bdb)) None.

(** The rows [cluster_anin_database] appends to [Table] for one MASH
    cluster. *)
Definition anin_cluster_rows (Cdb : list CdbRow) (Ndb : list NdbRow)
  (ANIn cov_thresh : Q) (cluster : nat) : list (string * string) :=
  let members :=
    map genome (filter (fun c => Nat.eqb (MASH_cluster c) cluster) Cdb) in
  let d := filter (fun r => smem (reference (n_row r)) members) Ndb in
  let g := make_graph_anin (map n_row d) cov_thresh ANIn in
  let df := cluster_graph g in
  flat_map (fun clust =>
              map (fun genome => (genome, format_cluster cluster clust))
                  (map cr_genome
                       (filter (fun r => Nat.eqb (cr_cluster r) clust) df)))
           (nunique (map cr_cluster df)).

(** [pd.merge(Gdb, Cdb)]: inner join on the common column [genome]. *)
Definition merge_Gdb_Cdb (Gdb : list (string * string)) (Cdb : list CdbRow)
  : list FinalRow :=
  flat_map (fun g =>
              map (fun c => mkFinalRow (fst g) (snd g) (MASH_cluster c))
                  (filter (fun c => String.eqb (genome c) (fst g)) Cdb))
           Gdb.

(** [cluster_anin_database]. [Ndb['reference']] is read once per MASH
    cluster and is a [KeyError] on the frame without columns. *)
Definition cluster_anin_database (Cdb : list CdbRow) (Ndb : option (list NdbRow))
  (ANIn cov_thresh : Q) : result (list FinalRow) :=
  let clusters := nunique (map MASH_cluster Cdb) in
  Table <- match clusters, Ndb with
           | [], _ => Ok []
           | _ :: _, None => Raise (KeyError "reference")
           | _ :: _, Some rows =>
               Ok (flat_map (anin_cluster_rows Cdb rows ANIn cov_thresh) clusters)
           end ;;
  Ok (merge_Gdb_Cdb Table Cdb).

Section ClusterGenomes.

(** [gen_nomash_cdb] is called by [cluster_genomes] and is defined neither
    in the module nor in what it imports; it is left a parameter. *)
Variable gen_nomash_cdb : list BdbRow -> result (list CdbRow).

(** A local variable read at [return]: unbound when no branch assigned it. *)
Definition read_local {A : Type} (name : string) (v : option A) : result A :=
  match v with
  | Some a => Ok a
  | None => Raise (UnboundLocalError name)
  end.

(** [cluster_genomes]. The locals [Mdb] and [Ndb] are bound only by the
    branch that assigns them. [Cdb] is the MASH table ([inl]) until the
    ANIn step rebinds it to the merged table ([inr]). [dry] only decides
    whether the external commands are run. *)
Definition cluster_genomes (W : World) (Bdb : list BdbRow) (data_folder : string)
  (MASH_ANI ANIn : Q) (dry skipMash skipANIn : bool)
  : result ((list CdbRow + list FinalRow) * list MdbRow * option (list NdbRow)) :=
  (* Step 2. Perform MASH clustering *)
  '(Cdb, Mdb) <-
     (if negb skipMash
      then let Mdb := all_vs_all_MASH W Bdb data_folder dry in
           let Cdb := cluster_database Mdb MASH_ANI in
           Ok (Cdb, Some Mdb)
      else Cdb <- gen_nomash_cdb Bdb ;;
           Ok (Cdb, None)) ;;
  (* Step 3. Perform ANIn clustering *)
  '(Cdb', Ndb) <-
     (if negb skipANIn
      then Ndb <- run_anin_on_clusters W Bdb Cdb data_folder dry ;;
           Cdb' <- cluster_anin_database Cdb Ndb 0.99 0.5 ;;
           Ok (inr Cdb', Some Ndb)
      else Ok (inl Cdb, None)) ;;
  (* Step 4. Return output *)
  Mdb <- read_local "Mdb" Mdb ;;
  Ndb <- read_local "Ndb" Ndb ;;
  Ok (Cdb', Mdb, Ndb).

End ClusterGenomes.

(** Modelled from the spec: [gen_nomash_cdb], which the module calls and
    does not define. "If coarse clustering is skipped, every genome is
    placed in a single implicit coarse cluster (id 0)". *)
Definition gen_nomash_cdb_spec (Bdb : list BdbRow) : result (list CdbRow) :=
  Ok (map (fun b => mkCdbRow 0 (b_genome b)) Bdb).

(** ** NUCmer commands *)

(** [gen_nucmer_cmd]; [c] and [maxgap] are passed through [str]. *)
Definition gen_nucmer_cmd (prefix ref querry : string) (c : nat) (noextend : bool)
  (maxgap : nat) (method : string) : list string :=
  let cmd := [ "nucmer"; ("--" ++ method)%string; "-p"; prefix;
               "-c"; string_of_nat c; "-g"; string_of_nat maxgap ] in
  let cmd := if noextend then cmd ++ ["--noextend"] else cmd in
  cmd ++ [ref; querry].

(** [gen_nucmer_commands]: one command per ordered pair of [genomes]. *)
Definition gen_nucmer_commands (genomes : list string) (outf : string)
  (c maxgap : nat) (noextend : bool) (method : string) : list (list string) :=
  flat_map (fun g1 =>
              map (fun g2 =>
                     let out := (outf ++ get_genome_name_from_fasta g1 ++ "_vs_"
                                      ++ get_genome_name_from_fasta g2)%string in
                     gen_nucmer_cmd out g1 g2 c noextend maxgap method)
                  genomes)
           genomes.

(** Step 1 of [run_anin_on_clusters]: the commands [cmds] it generates,
    cluster by cluster, with [maxgap=1] and [noextend=True]. *)
Definition run_anin_commands (Bdb : list BdbRow) (Cdb : list CdbRow)
  (data_folder : string) : list (list string) :=
  let ANIn_folder := (data_folder ++ "ANIn_files/")%string in
  let Bdb := merge_Bdb_Cdb Bdb Cdb in
  flat_map (fun cluster =>
              let d := filter (fun r : BdbRow * nat => Nat.eqb (snd r) cluster) Bdb in
              let genomes := map (fun r : BdbRow * nat => location (fst r)) d in
              let outf := (ANIn_folder ++ string_of_nat cluster ++ "/")%string in
              gen_nucmer_commands genomes outf 65 1 true "mum")
           (nunique (map snd Bdb)).

(** ** Loading the genome list *)

(** The outcome of a function that can also fail an [assert]. *)
Inductive outcome (A : Type) : Type :=
| Returns (a : A)
| AssertionError
| Raises (e : exn).
Arguments Returns {A} a.
Arguments AssertionError {A}.
Arguments Raises {A} e.

(** ['.'.join(os.path.basename(genome).split('.')[:-1])] *)
Definition load_genome_name (genome : string) : string :=
  String.concat "." (removelast (split_sep "." (basename genome))).

(** [load_genomes]; [isfile] is [os.path.isfile]. *)
Fixpoint load_genomes (isfile : string -> bool) (genome_list : list string)
  : outcome (list BdbRow) :=
  match genome_list with
  | [] => Returns []
  | genome :: rest =>
      if isfile genome
      then match load_genomes isfile rest with
           | Returns Table => Returns (mkBdbRow (load_genome_name genome) genome :: Table)
           | AssertionError => AssertionError
           | Raises e => Raises e
           end
      else AssertionError
  end.

(** [parse_arguments]: [genomes] is [args.genomes] ([None] when no list
    was given) and [hasDb] the value of [workDirectory.hasDb("Bdb")]. *)
Definition parse_arguments (isfile : string -> bool)
  (genomes : option (list string)) (hasDb : bool) : outcome (list BdbRow) :=
  match genomes with
  | Some genome_list =>
      if negb hasDb then load_genomes isfile genome_list else AssertionError
  | None =>
      if hasDb then Raises (UnboundLocalError "Bdb") else AssertionError
  end.

(** * Vocabulary of the statements

    Predicates on graphs and tables, tests on the inputs, and the example
    inputs the statements below are evaluated on. None of them is part of
    the module. *)

(** ** Graphs *)

(** A graph is well formed when its nodes are distinct and its edges join
    nodes; every graph built by [add_node] and [add_edge] is. *)
Definition wf (G : Graph) : Prop :=
  NoDup (nodes G) /\
  forall u v, In (u, v) (edges G) -> In u (nodes G) /\ In v (nodes G).

(** The graph with the given seed nodes and edge insertions. *)
Definition add_nodes (seeds : list string) (G : Graph) : Graph :=
  fold_left (fun G g => add_node g G) seeds G.

Definition add_edges (E : list (string * string)) (G : Graph) : Graph :=
  fold_left (fun G e => add_edge (fst e) (snd e) G) E G.

Definition build (seeds : list string) (E : list (string * string)) : Graph :=
  add_edges E (add_nodes seeds empty_graph).

(** The edges [make_graph] inserts: one per row that passes the threshold. *)
Definition mash_edges (df : list MdbRow) (threshold : Q) : list (string * string) :=
  map (fun r => (genome1 r, genome2 r))
      (filter (fun r => Qgtb (similarity r) threshold) df).

(** The edges [make_graph_anin] inserts. *)
Definition anin_edges (df : list DeltaRow) (cov_thresh anin_thresh : Q)
  : list (string * string) :=
  map (fun r => (reference r, querry r))
      (filter (fun r => Qgtb (ref_coverage r) cov_thresh
                        && Qgtb (ani r) anin_thresh) df).

(** The graph is undirected: an inserted edge joins its end points both
    ways. *)
Definition adjacent (G : Graph) (u v : string) : Prop :=
  In (u, v) (edges G) \/ In (v, u) (edges G).

(** [w] is connected to [s]. *)
Inductive reach (G : Graph) (s : string) : string -> Prop :=
| reach_refl : reach G s s
| reach_step v w : reach G s v -> adjacent G v w -> reach G s w.

(** A list of nodes that holds every neighbour of its members. *)
Definition closed (G : Graph) (R : list string) : Prop :=
  forall u w, In u R -> adjacent G u w -> In w R.

(** A component: the nodes reachable from one node, each listed once. *)
Definition is_component (G : Graph) (c : list string) : Prop :=
  NoDup c /\ exists s, In s (nodes G) /\ forall w, In w c <-> reach G s w.

(** ** Clusterings *)

(** The number of distinct clusters of a clustering table. *)
Definition n_clusters (df : list ClusterRow) : nat :=
  List.length (nunique (map cr_cluster df)).

(** Two genomes have the same cluster number in a clustering table. *)
Definition same_cluster (df : list ClusterRow) (u w : string) : Prop :=
  exists i, In (mkClusterRow i u) df /\ In (mkClusterRow i w) df.

(** ** Tests on tables *)

(** A row of the MASH table with the given similarity. *)
Definition mash_row (g1 g2 : string) (sim : Q) : MdbRow :=
  mkMdbRow g1 g2 (Qred (1 - sim)) 0 "1000/1000" sim.

(** No threshold-passing row joins [g] to another genome. *)
Definition isolated (df : list MdbRow) (threshold : Q) (g : string) : bool :=
  forallb (fun r => negb (Qgtb (similarity r) threshold)
                    || negb (String.eqb (genome1 r) g || String.eqb (genome2 r) g)
                    || String.eqb (genome1 r) (genome2 r))
          df.

(** No row that passes the thresholds of the fine graph joins [g] to
    another genome. *)
Definition isolated_anin (df : list DeltaRow) (cov_thresh anin_thresh : Q)
  (g : string) : bool :=
  forallb (fun r => negb (Qgtb (ref_coverage r) cov_thresh
                          && Qgtb (ani r) anin_thresh)
                    || negb (String.eqb (reference r) g || String.eqb (querry r) g)
                    || String.eqb (reference r) (querry r))
          df.

(** [g] is the second genome of a row that passes the threshold. *)
Definition second_of_passing_row (df : list MdbRow) (threshold : Q) (g : string)
  : bool :=
  existsb (fun r => Qgtb (similarity r) threshold && String.eqb (genome2 r) g) df.

(** [g] is the query of a row that passes the thresholds of the fine
    graph. *)
Definition querry_of_passing_row (df : list DeltaRow) (cov_thresh anin_thresh : Q)
  (g : string) : bool :=
  existsb (fun r => Qgtb (ref_coverage r) cov_thresh && Qgtb (ani r) anin_thresh
                    && String.eqb (querry r) g) df.

(** A row of the alignment table with the given coverage and identity. *)
Definition delta_row (qry ref : string) (cov identity : Q) : DeltaRow :=
  mkDeltaRow qry ref 1000 0 cov cov identity.

(** The table without its self-pair rows. *)
Definition drop_self_pairs (df : list MdbRow) : list MdbRow :=
  filter (fun r => negb (String.eqb (genome1 r) (genome2 r))) df.

(** Every genome named by a self-pair row also heads a row that is kept. *)
Definition self_pairs_covered (df : list MdbRow) : bool :=
  forallb (fun r => negb (String.eqb (genome1 r) (genome2 r))
                    || smem (genome1 r) (map genome1 (drop_self_pairs df)))
          df.

(** ** Tests on delta files *)

(** A line [parse_delta] passes over: not blank, and either a header or
    not made of seven fields. *)
Definition skipped_line (l : string) : bool :=
  match split_ws l with
  | [] => false
  | line0 :: _ =>
      String.eqb line0 "NUCMER" || startswith ">" line0
      || negb (Nat.eqb (List.length (split_ws l)) 7)
  end.




(** ** Tests on the tables of the driver *)

(** The MASH cluster of a genome in Cdb. *)
Definition mash_cluster_of (Cdb : list CdbRow) (g : string) : option nat :=
  option_map MASH_cluster (find (fun c => String.eqb (genome c) g) Cdb).

(** The threshold test of [make_graph_anin]. *)
Definition passes_anin (ANIn cov_thresh : Q) (r : DeltaRow) : bool :=
  Qgtb (ref_coverage r) cov_thresh && Qgtb (ani r) ANIn.

(** No alignment row that passes the thresholds pairs genomes of two
    different MASH clusters. *)
Definition no_cross_cluster_edge (Cdb : list CdbRow) (Ndb : list NdbRow)
  (ANIn cov_thresh : Q) : bool :=
  forallb (fun r =>
             negb (passes_anin ANIn cov_thresh (n_row r))
             || match mash_cluster_of Cdb (reference (n_row r)),
                      mash_cluster_of Cdb (querry (n_row r)) with
                | Some a, Some b => Nat.eqb a b
                | _, _ => true
                end)
          Ndb.

(** The fine graph [cluster_anin_database] builds for one MASH cluster:
    from the rows of Ndb whose reference is a genome of the cluster. *)
Definition fine_graph (Cdb : list CdbRow) (Ndb : list NdbRow)
  (ANIn cov_thresh : Q) (cluster : nat) : Graph :=
  make_graph_anin
    (map n_row
         (filter (fun r =>
                    smem (reference (n_row r))
                         (map genome
                              (filter (fun c => Nat.eqb (MASH_cluster c) cluster) Cdb)))
                 Ndb))
    cov_thresh ANIn.

(** The genome is in the alignment table: it is the reference of a row, or
    the query of a row that passes the thresholds and whose reference is a
    genome of Cdb. *)
Definition aligned (Cdb : list CdbRow) (Ndb : list NdbRow)
  (ANIn cov_thresh : Q) (g : string) : bool :=
  existsb (fun r =>
             String.eqb (reference (n_row r)) g
             || (passes_anin ANIn cov_thresh (n_row r)
                 && String.eqb (querry (n_row r)) g
                 && smem (reference (n_row r)) (map genome Cdb)))
          Ndb.

(** The inner loops of [cluster_anin_database] over the rows of one
    clustering table. *)
Definition regroup (df : list ClusterRow) (label : nat -> string)
  : list (string * string) :=
  flat_map (fun clust =>
              map (fun genome => (genome, label clust))
                  (map cr_genome
                       (filter (fun r => Nat.eqb (cr_cluster r) clust) df)))
           (nunique (map cr_cluster df)).

(** ** Tests on names and commands *)

(** The character occurs in the string. *)
Fixpoint has_char (c : ascii) (s : string) : bool :=
  match s with
  | "" => false
  | String a s' => Ascii.eqb a c || has_char c s'
  end.

(** The separator occurs in the string. *)
Fixpoint occurs (sep s : string) : bool :=
  String.prefix sep s
  || match s with
     | "" => false
     | String _ s' => occurs sep s'
     end.

(** A genome name that the separator ["_vs_"] of the output files cannot
    be confused with: it does not occur in the name followed by ["_vs"]. *)
Definition vs_free (name : string) : bool :=
  negb (occurs "_vs_" (name ++ "_vs")).

(** ** Example inputs *)

(** Three genomes: A and B are close (MASH similarity 0.95), C is far. *)
Definition three_genomes : list BdbRow :=
  [mkBdbRow "A" "/g/A.fna"; mkBdbRow "B" "/g/B.fna"; mkBdbRow "C" "/g/C.fna"].

(** The distance table MASH writes for them. *)
Definition three_genomes_tsv : list (string * string * Q * Q * string) :=
  [("/g/A.fna", "/g/A.fna", 0%Q, 0%Q, "1000/1000");
   ("/g/A.fna", "/g/B.fna", 0.05%Q, 0%Q, "400/1000");
   ("/g/A.fna", "/g/C.fna", 0.6%Q, 1%Q, "1/1000");
   ("/g/B.fna", "/g/A.fna", 0.05%Q, 0%Q, "400/1000");
   ("/g/B.fna", "/g/B.fna", 0%Q, 0%Q, "1000/1000");
   ("/g/B.fna", "/g/C.fna", 0.6%Q, 1%Q, "1/1000");
   ("/g/C.fna", "/g/A.fna", 0.6%Q, 1%Q, "1/1000");
   ("/g/C.fna", "/g/B.fna", 0.6%Q, 1%Q, "1/1000");
   ("/g/C.fna", "/g/C.fna", 0%Q, 0%Q, "1000/1000")].

(** A delta file with one aligned region of length 1000 and the given
    number of errors. *)
Definition delta_lines (errors : string) : list string :=
  ["/g/ref.fna /g/qry.fna"; "NUCMER"; ">contig1 contig1 1100 1100";
   "1 1001 1 1001 " ++ errors ++ " " ++ errors ++ " 0"; "0"]%string.

(** Every NUCmer job has written its file; A and B align with the given
    number of errors. Every genome is 1100 bases long. *)
Definition complete_world (errors : string) : World :=
  mkWorld three_genomes_tsv
    (fun dir =>
       if String.eqb dir "data/ANIn_files/0/"
       then [("data/ANIn_files/0/A_vs_A.delta", delta_lines "0");
             ("data/ANIn_files/0/A_vs_B.delta", delta_lines errors);
             ("data/ANIn_files/0/B_vs_A.delta", delta_lines errors);
             ("data/ANIn_files/0/B_vs_B.delta", delta_lines "0")]
       else if String.eqb dir "data/ANIn_files/1/"
       then [("data/ANIn_files/1/C_vs_C.delta", delta_lines "0")]
       else [])
    (fun _ => 1100%Z).

(** The NUCmer jobs with reference B have left no file. *)
Definition partial_world : World :=
  mkWorld three_genomes_tsv
    (fun dir =>
       if String.eqb dir "data/ANIn_files/0/"
       then [("data/ANIn_files/0/A_vs_A.delta", delta_lines "0");
             ("data/ANIn_files/0/B_vs_A.delta", delta_lines "30")]
       else if String.eqb dir "data/ANIn_files/1/"
       then [("data/ANIn_files/1/C_vs_C.delta", delta_lines "0")]
       else [])
    (fun _ => 1100%Z).

(** The NUCmer jobs with reference B have left no file, and B aligns to A
    above the thresholds. *)
Definition query_only_world : World :=
  mkWorld three_genomes_tsv
    (fun dir =>
       if String.eqb dir "data/ANIn_files/0/"
       then [("data/ANIn_files/0/A_vs_A.delta", delta_lines "0");
             ("data/ANIn_files/0/B_vs_A.delta", delta_lines "5")]
       else if String.eqb dir "data/ANIn_files/1/"
       then [("data/ANIn_files/1/C_vs_C.delta", delta_lines "0")]
       else [])
    (fun _ => 1100%Z).

(** The genome and label columns of the table [cluster_genomes] returns. *)
Definition labels
  (r : result ((list CdbRow + list FinalRow) * list MdbRow * option (list NdbRow)))
  : option (list (string * string)) :=
  match r with
  | Ok (inr Cdb, _, _) => Some (map (fun x => (f_genome x, ANIn_cluster x)) Cdb)
  | _ => None
  end.

(** The run of the driver on the complete world, and what it returns. *)
Definition complete_run :=
  cluster_genomes gen_nomash_cdb_spec (complete_world "5") three_genomes "data/"
                  0.9 0.99 false false false.

Definition complete_run_Cdb : list FinalRow :=
  match complete_run with Ok (inr Cdb, _, _) => Cdb | _ => [] end.

Definition complete_run_Mdb : list MdbRow :=
  match complete_run with Ok (_, Mdb, _) => Mdb | _ => [] end.

Definition complete_run_Ndb : list NdbRow :=
  match complete_run with Ok (_, _, Some Ndb) => Ndb | _ => [] end.

(** The run of the driver on the partial world, and what it returns. *)
Definition partial_run :=
  cluster_genomes gen_nomash_cdb_spec partial_world three_genomes "data/"
                  0.9 0.99 false false false.

Definition partial_run_Cdb : list FinalRow :=
  match partial_run with Ok (inr Cdb, _, _) => Cdb | _ => [] end.

Definition partial_run_Mdb : list MdbRow :=
  match partial_run with Ok (_, Mdb, _) => Mdb | _ => [] end.

Definition partial_run_Ndb : list NdbRow :=
  match partial_run with Ok (_, _, Some Ndb) => Ndb | _ => [] end.

(** * Properties *)

(** ** Lists and columns *)

Lemma filter_none {A : Type} (f : A -> bool) (l : list A) :
  (forall y, In y l -> f y = false) -> filter f l = [].
Proof.
  induction l as [|a l IH]; simpl; intro H; [reflexivity|].
  rewrite (H a (or_introl eq_refl)). apply IH. intros y Hy. apply H. now right.
Qed.

Lemma filter_all {A : Type} (f : A -> bool) (l : list A) :
  (forall y, In y l -> f y = true) -> filter f l = l.
Proof.
  intro H. apply forallb_filter_id. now apply forallb_forall.
Qed.

Section UniqueFacts.
Context {A : Type} (eqb : A -> A -> bool).
Hypothesis eqb_eq : forall x y, eqb x y = true <-> x = y.

Lemma eqb_refl' x : eqb x x = true.
Proof. now apply eqb_eq. Qed.

Lemma eqb_neq' x y : eqb x y = false <-> x <> y.
Proof.
  split; intro H.
  - intro E. apply eqb_eq in E. congruence.
  - destruct (eqb x y) eqn:E; [apply eqb_eq in E; contradiction | reflexivity].
Qed.

Lemma mem_In x l : mem eqb x l = true <-> In x l.
Proof.
  unfold mem. rewrite existsb_exists. split.
  - intros (y & Hy & E). apply eqb_eq in E. now subst.
  - intro H. exists x. split; [assumption | apply eqb_refl'].
Qed.

Lemma mem_not_In x l : mem eqb x l = false <-> ~ In x l.
Proof.
  rewrite <- mem_In. destruct (mem eqb x l); split; congruence.
Qed.

Lemma unique_In x l : In x (unique eqb l) <-> In x l.
Proof.
  induction l as [|a l IH]; simpl; [tauto|].
  rewrite filter_In, IH. split.
  - intros [H | [H _]]; auto.
  - intros [H | H]; auto.
    destruct (eqb a x) eqn:E.
    + apply eqb_eq in E. auto.
    + right. split; [assumption | reflexivity].
Qed.

Lemma unique_NoDup l : NoDup (unique eqb l).
Proof.
  induction l as [|a l IH]; simpl; constructor.
  - rewrite filter_In. intros [_ H]. now rewrite eqb_refl' in H.
  - now apply NoDup_filter.
Qed.

(** On a column whose values are one value, [unique] is that value. *)
Lemma unique_cons_const x n l :
  ~ In x l ->
  unique eqb (repeat x (S n) ++ l) = x :: unique eqb l.
Proof.
  intro Hx. induction n as [|n IH].
  - simpl. f_equal. apply filter_all.
    intros y Hy. apply (proj1 (unique_In _ _)) in Hy.
    apply negb_true_iff, eqb_neq'. intro E. subst. contradiction.
  - change (repeat x (S (S n)) ++ l) with (x :: (repeat x (S n) ++ l)).
    cbn [unique]. rewrite IH. cbn [filter]. rewrite eqb_refl'. cbn [negb].
    f_equal. apply filter_all.
    intros y Hy. apply (proj1 (unique_In _ _)) in Hy.
    apply negb_true_iff, eqb_neq'. intro E. subst. contradiction.
Qed.

(** A row that is the only one with its key is what a filter on the key
    returns. *)
Lemma filter_key_unique {B : Type} (key : B -> A) (l : list B) (r : B) :
  NoDup (map key l) -> In r l ->
  filter (fun x => eqb (key x) (key r)) l = [r].
Proof.
  induction l as [|a l IH]; simpl; intros Hnd Hin; [contradiction|].
  inversion Hnd as [|? ? Hnotin Hnd']; subst.
  destruct Hin as [-> | Hin].
  - rewrite eqb_refl'. f_equal.
    apply filter_none. intros y Hy.
    apply eqb_neq'. intro E. apply Hnotin. rewrite <- E. now apply in_map.
  - destruct (eqb (key a) (key r)) eqn:E.
    + apply eqb_eq in E. exfalso. apply Hnotin. rewrite E. now apply in_map.
    + now apply IH.
Qed.

Lemma filter_key_absent {B : Type} (key : B -> A) (l : list B) (k : A) :
  ~ In k (map key l) -> filter (fun x => eqb (key x) k) l = [].
Proof.
  intro H. apply filter_none. intros y Hy.
  apply eqb_neq'. intro E. apply H. rewrite <- E. now apply in_map.
Qed.

End UniqueFacts.

Lemma smem_In x l : smem x l = true <-> In x l.
Proof. apply mem_In, String.eqb_eq. Qed.

Lemma smem_not_In x l : smem x l = false <-> ~ In x l.
Proof. apply mem_not_In, String.eqb_eq. Qed.

Lemma sunique_In x l : In x (sunique l) <-> In x l.
Proof. apply unique_In, String.eqb_eq. Qed.

Lemma sunique_NoDup l : NoDup (sunique l).
Proof. apply unique_NoDup, String.eqb_eq. Qed.

Lemma nunique_In x l : In x (nunique l) <-> In x l.
Proof. apply unique_In, Nat.eqb_eq. Qed.

Lemma nunique_NoDup l : NoDup (nunique l).
Proof. apply unique_NoDup, Nat.eqb_eq. Qed.

Lemma NoDup_app_intro {A : Type} (l1 l2 : list A) :
  NoDup l1 -> NoDup l2 -> (forall x, In x l1 -> ~ In x l2) -> NoDup (l1 ++ l2).
Proof.
  induction l1 as [|a l1 IH]; simpl; intros H1 H2 H; [assumption|].
  inversion H1; subst. constructor.
  - rewrite in_app_iff. intros [Ha | Ha]; [contradiction|].
    apply (H a); auto.
  - apply IH; auto.
Qed.

Lemma NoDup_app_inv {A : Type} (l1 l2 : list A) :
  NoDup (l1 ++ l2) ->
  NoDup l1 /\ NoDup l2 /\ (forall x, In x l1 -> ~ In x l2).
Proof.
  induction l1 as [|a l1 IH]; simpl; intro H.
  - repeat split; [constructor | assumption | tauto].
  - inversion H as [|? ? Hn Hnd]; subst. destruct (IH Hnd) as (H1 & H2 & H3).
    repeat split; [constructor | assumption |].
    + intro Ha. apply Hn. apply in_app_iff. now left.
    + assumption.
    + intros x [-> | Hx]; [|now apply H3].
      intro Hx. apply Hn. apply in_app_iff. now right.
Qed.

(** ** Graphs built by insertion *)

Lemma addn_In x g ns : In x (addn g ns) <-> x = g \/ In x ns.
Proof.
  unfold addn. destruct (smem g ns) eqn:E.
  - apply smem_In in E. split; [auto | intros [-> | H]; assumption].
  - rewrite in_app_iff. simpl. intuition congruence.
Qed.

Lemma addn_NoDup g ns : NoDup ns -> NoDup (addn g ns).
Proof.
  intro H. unfold addn. destruct (smem g ns) eqn:E; [assumption|].
  apply smem_not_In in E. apply NoDup_app_intro; [assumption | repeat constructor; auto |].
  intros x Hx [<- | []]. contradiction.
Qed.

Lemma wf_empty : wf empty_graph.
Proof. split; [constructor | intros u v []]. Qed.

Lemma wf_add_node g G : wf G -> wf (add_node g G).
Proof.
  intros [Hn He]. split; simpl.
  - now apply addn_NoDup.
  - intros u v H. destruct (He u v H). rewrite !addn_In. auto.
Qed.

Lemma wf_add_edge u v G : wf G -> wf (add_edge u v G).
Proof.
  intros [Hn He]. split; simpl.
  - now apply addn_NoDup, addn_NoDup.
  - intros a b H. rewrite !addn_In. apply in_app_iff in H.
    destruct H as [H | [H | []]].
    + destruct (He a b H). auto.
    + inversion H; subst. auto.
Qed.

Lemma add_nodes_edges seeds G : edges (add_nodes seeds G) = edges G.
Proof.
  revert G. induction seeds as [|s seeds IH]; intro G; simpl; [reflexivity|].
  unfold add_nodes in IH. now rewrite IH.
Qed.

Lemma add_nodes_In x seeds G :
  In x (nodes (add_nodes seeds G)) <-> In x (nodes G) \/ In x seeds.
Proof.
  revert G. induction seeds as [|s seeds IH]; intro G; simpl; [tauto|].
  unfold add_nodes in IH. rewrite IH. simpl. rewrite addn_In. intuition.
Qed.

Lemma wf_add_nodes seeds G : wf G -> wf (add_nodes seeds G).
Proof.
  revert G. induction seeds as [|s seeds IH]; intros G H; simpl; [assumption|].
  apply IH. now apply wf_add_node.
Qed.

Lemma add_edges_edges E G : edges (add_edges E G) = edges G ++ E.
Proof.
  revert G. induction E as [|e E IH]; intro G; simpl.
  - now rewrite app_nil_r.
  - unfold add_edges in IH. rewrite IH. simpl. rewrite <- app_assoc.
    now destruct e.
Qed.

Lemma add_edges_In x E G :
  In x (nodes (add_edges E G)) <->
  In x (nodes G) \/ exists e, In e E /\ (x = fst e \/ x = snd e).
Proof.
  revert G. induction E as [|e E IH]; intro G; simpl.
  - split; [auto | intros [H | (e & [] & _)]; assumption].
  - unfold add_edges in IH. rewrite IH. simpl. rewrite !addn_In. split.
    + intros [[-> | [-> | H]] | (e' & He' & H)]; eauto 6.
    + intros [H | (e' & [<- | He'] & H)]; [auto | | eauto].
      destruct H as [-> | ->]; auto.
Qed.

Lemma wf_add_edges E G : wf G -> wf (add_edges E G).
Proof.
  revert G. induction E as [|e E IH]; intros G H; simpl; [assumption|].
  apply IH. now apply wf_add_edge.
Qed.

Lemma wf_build seeds E : wf (build seeds E).
Proof. apply wf_add_edges, wf_add_nodes, wf_empty. Qed.

Lemma build_edges seeds E : edges (build seeds E) = E.
Proof. unfold build. now rewrite add_edges_edges, add_nodes_edges. Qed.

Lemma build_In x seeds E :
  In x (nodes (build seeds E)) <->
  In x seeds \/ exists e, In e E /\ (x = fst e \/ x = snd e).
Proof.
  unfold build. rewrite add_edges_In, add_nodes_In. simpl. tauto.
Qed.

(** The loop over the rows of a table inserts the edges of the rows that
    pass the threshold test. *)
Lemma fold_rows_add_edges {R : Type} (pass : R -> bool) (a b : R -> string)
  (df : list R) (G : Graph) :
  fold_left (fun G row => if pass row then add_edge (a row) (b row) G else G) df G
  = add_edges (map (fun r => (a r, b r)) (filter pass df)) G.
Proof.
  revert G. induction df as [|r df IH]; intro G; simpl; [reflexivity|].
  rewrite IH. now destruct (pass r).
Qed.

Lemma make_graph_build df threshold :
  make_graph df threshold
  = build (sunique (map genome1 df)) (mash_edges df threshold).
Proof.
  unfold make_graph, build, mash_edges.
  now rewrite <- fold_rows_add_edges.
Qed.

Lemma make_graph_anin_build df cov_thresh anin_thresh :
  make_graph_anin df cov_thresh anin_thresh
  = build (sunique (map reference df)) (anin_edges df cov_thresh anin_thresh).
Proof.
  unfold make_graph_anin, build, anin_edges.
  now rewrite <- fold_rows_add_edges.
Qed.

Lemma wf_make_graph df threshold : wf (make_graph df threshold).
Proof. rewrite make_graph_build. apply wf_build. Qed.

Lemma wf_make_graph_anin df c a : wf (make_graph_anin df c a).
Proof. rewrite make_graph_anin_build. apply wf_build. Qed.

(** ** Reachability and the traversal *)

Lemma adjacent_sym G u v : adjacent G u v -> adjacent G v u.
Proof. unfold adjacent. tauto. Qed.

Lemma reach_trans G a b c : reach G a b -> reach G b c -> reach G a c.
Proof.
  intros Hab Hbc. induction Hbc; [assumption|].
  eapply reach_step; eassumption.
Qed.

Lemma reach_sym G a b : reach G a b -> reach G b a.
Proof.
  intro H. induction H as [|v w _ IH Hadj]; [constructor|].
  apply reach_trans with v; [|assumption].
  apply reach_step with w; [constructor | now apply adjacent_sym].
Qed.

Lemma reach_closed G R s w : closed G R -> In s R -> reach G s w -> In w R.
Proof.
  intros Hc Hs H. induction H; [assumption|]. eapply Hc; eassumption.
Qed.

Lemma adjacent_nodes G u w : wf G -> adjacent G u w -> In u (nodes G) /\ In w (nodes G).
Proof.
  intros [_ He] [H | H]; destruct (He _ _ H); auto.
Qed.

Lemma reach_nodes G s w : wf G -> In s (nodes G) -> reach G s w -> In w (nodes G).
Proof.
  intros Hwf Hs H. induction H; [assumption|].
  now destruct (adjacent_nodes G v w Hwf).
Qed.

Lemma neighbors_In G u w : In w (neighbors G u) <-> adjacent G u w.
Proof.
  unfold neighbors, adjacent. rewrite in_flat_map. split.
  - intros ([a b] & He & Hw). simpl in Hw.
    destruct (String.eqb_spec a u) as [-> | Ha].
    + destruct Hw as [<- | []]. now left.
    + destruct (String.eqb_spec b u) as [-> | Hb]; [|contradiction].
      destruct Hw as [<- | []]. now right.
  - intros [H | H].
    + exists (u, w). split; [assumption|]. simpl. rewrite String.eqb_refl. now left.
    + exists (w, u). split; [assumption|]. simpl.
      destruct (String.eqb_spec w u) as [-> | Hw]; [now left|].
      rewrite String.eqb_refl. now left.
Qed.

Lemma plain_bfs_loop_done fuel G seen : plain_bfs_loop fuel G seen [] = seen.
Proof. now destruct fuel. Qed.

Lemma fresh_In x seen level :
  In x (sunique (filter (fun v => negb (smem v seen)) level)) <->
  In x level /\ ~ In x seen.
Proof.
  rewrite sunique_In, filter_In, negb_true_iff, smem_not_In. tauto.
Qed.

(** The traversal with enough fuel returns a duplicate-free list that
    contains what it started from, is closed under adjacency and holds
    only nodes reachable from the source. *)
Lemma plain_bfs_loop_inv G s : wf G ->
  forall fuel seen level,
  NoDup seen -> incl seen (nodes G) -> incl level (nodes G) ->
  (forall u w, In u seen -> adjacent G u w -> In w seen \/ In w level) ->
  (forall u, In u seen \/ In u level -> reach G s u) ->
  List.length (nodes G) < fuel + List.length seen ->
  let R := plain_bfs_loop fuel G seen level in
  NoDup R /\ incl seen R /\ incl level R /\ closed G R /\
  (forall u, In u R -> reach G s u).
Proof.
  intro Hwf. induction fuel as [|fuel IH];
    intros seen level Hnd Hseen Hlevel Hfront Hreach Hfuel.
  - exfalso. pose proof (NoDup_incl_length Hnd Hseen). simpl in Hfuel. lia.
  - destruct level as [|a level'].
    + simpl. repeat split; auto using incl_refl.
      * intros x [].
      * intros u w Hu Hadj. destruct (Hfront u w Hu Hadj) as [H | []]. exact H.
    + cbn [plain_bfs_loop].
      assert (Ha : In a (a :: level')) by now left.
      set (level := a :: level') in *.
      remember (sunique (filter (fun v => negb (smem v seen)) level)) as fresh
        eqn:Efresh.
      assert (Hfresh : forall x, In x fresh <-> In x level /\ ~ In x seen)
        by (intro x; subst fresh; apply fresh_In).
      assert (Hfnd : NoDup fresh) by (subst fresh; apply sunique_NoDup).
      clear Efresh.
      assert (Hcover : forall x, In x level -> In x (seen ++ fresh)).
      { intros x Hx. apply in_app_iff.
        destruct (in_dec string_dec x seen) as [Hin | Hout]; [now left|].
        right. apply Hfresh. now split. }
      destruct fresh as [|f fresh'].
      * simpl. rewrite app_nil_r, plain_bfs_loop_done.
        assert (Hin : incl level seen).
        { intros x Hx. specialize (Hcover x Hx). now rewrite app_nil_r in Hcover. }
        repeat split; auto using incl_refl.
        intros u w Hu Hadj. destruct (Hfront u w Hu Hadj) as [H | H]; auto.
      * set (fresh := f :: fresh') in *.
        assert (Hlen : 1 <= List.length fresh) by (simpl; lia).
        destruct (IH (seen ++ fresh) (flat_map (neighbors G) fresh))
          as (R1 & R2 & R3 & R4 & R5).
        -- apply NoDup_app_intro; [assumption | exact Hfnd |].
           intros x Hx Hx'. apply Hfresh in Hx'. tauto.
        -- apply incl_app; [assumption|].
           intros x Hx. apply Hfresh in Hx. apply Hlevel. tauto.
        -- intros x Hx. apply in_flat_map in Hx. destruct Hx as (v & _ & Hx).
           apply neighbors_In in Hx. now destruct (adjacent_nodes G v x Hwf).
        -- intros u w Hu Hadj. apply in_app_iff in Hu. destruct Hu as [Hu | Hu].
           ++ left. destruct (Hfront u w Hu Hadj) as [H | H].
              ** apply in_app_iff. now left.
              ** now apply Hcover.
           ++ right. apply in_flat_map. exists u. split; [assumption|].
              now apply neighbors_In.
        -- intros u [Hu | Hu].
           ++ apply in_app_iff in Hu. destruct Hu as [Hu | Hu]; [auto|].
              apply Hfresh in Hu. apply Hreach. tauto.
           ++ apply in_flat_map in Hu. destruct Hu as (v & Hv & Hu).
              apply neighbors_In in Hu. apply reach_step with v; [|assumption].
              apply Hfresh in Hv. apply Hreach. tauto.
        -- rewrite length_app. lia.
        -- repeat split; auto.
           ++ intros x Hx. apply R2. apply in_app_iff. now left.
           ++ intros x Hx. apply R2. now apply Hcover.
Qed.

(** [plain_bfs] returns the nodes reachable from the source, each once. *)
Lemma plain_bfs_spec G s : wf G -> In s (nodes G) ->
  NoDup (plain_bfs G s) /\ forall w, In w (plain_bfs G s) <-> reach G s w.
Proof.
  intros Hwf Hs.
  destruct (plain_bfs_loop_inv G s Hwf (S (List.length (nodes G))) [] [s])
    as (R1 & _ & R3 & R4 & R5).
  - constructor.
  - intros x [].
  - intros x [<- | []]. assumption.
  - intros u w [].
  - intros u [[] | [<- | []]]. constructor.
  - simpl. lia.
  - split; [exact R1|]. intro w. split; [apply R5|].
    intro H. apply (reach_closed G _ s w R4); [|assumption].
    apply R3. now left.
Qed.

(** ** Connected components *)

Lemma is_component_rel G c u w :
  is_component G c -> In u c -> (In w c <-> reach G u w).
Proof.
  intros (_ & s & _ & Hc) Hu. apply Hc in Hu. rewrite Hc. split; intro H.
  - apply reach_trans with s; [now apply reach_sym | assumption].
  - now apply reach_trans with u.
Qed.

Lemma is_component_nonempty G c : is_component G c -> c <> [].
Proof.
  intros (_ & s & _ & Hc) ->. destruct (proj2 (Hc s) (reach_refl G s)).
Qed.

Lemma is_component_nodes G c x : wf G -> is_component G c -> In x c -> In x (nodes G).
Proof.
  intros Hwf (_ & s & Hs & Hc) Hx. apply Hc in Hx. now apply reach_nodes with s.
Qed.

Lemma cc_loop_spec G : wf G ->
  forall vs seen,
  incl vs (nodes G) ->
  (forall u w, In u seen -> reach G u w -> In w seen) ->
  let L := cc_loop G vs seen in
  Forall (is_component G) L /\ NoDup (List.concat L) /\
  (forall x, In x (List.concat L) -> ~ In x seen) /\
  (forall v, In v vs -> In v seen \/ In v (List.concat L)).
Proof.
  intro Hwf. induction vs as [|v vs IH]; intros seen Hvs Hclosed; simpl.
  - repeat split; [constructor | constructor | intros x [] | intros v []].
  - assert (Hv : In v (nodes G)) by (apply Hvs; now left).
    assert (Hvs' : incl vs (nodes G)) by (intros x Hx; apply Hvs; now right).
    destruct (smem v seen) eqn:Emem.
    + apply smem_In in Emem.
      destruct (IH seen Hvs' Hclosed) as (F & ND & DJ & CV).
      repeat split; auto. intros x [<- | Hx]; auto.
    + apply smem_not_In in Emem.
      destruct (plain_bfs_spec G v Hwf Hv) as (Hnd & Hc).
      set (c := plain_bfs G v) in *.
      destruct (IH (seen ++ c) Hvs') as (F & ND & DJ & CV).
      { intros u w Hu Huw. apply in_app_iff. apply in_app_iff in Hu.
        destruct Hu as [Hu | Hu]; [left; eauto|].
        right. apply Hc. apply reach_trans with u; [now apply Hc | assumption]. }
      simpl. repeat split.
      * constructor; [|assumption]. split; [assumption|]. now exists v.
      * apply NoDup_app_intro; auto. intros x Hx Hx'.
        apply (DJ x Hx'). apply in_app_iff. now right.
      * intros x Hx Hseen. apply in_app_iff in Hx. destruct Hx as [Hx | Hx].
        -- apply Emem. apply (Hclosed x v Hseen). apply reach_sym. now apply Hc.
        -- apply (DJ x Hx). apply in_app_iff. now left.
      * intros x [<- | Hx].
        -- right. apply in_app_iff. left. apply Hc. constructor.
        -- destruct (CV x Hx) as [H | H].
           ++ apply in_app_iff in H. destruct H as [H | H]; [now left|].
              right. apply in_app_iff. now left.
           ++ right. apply in_app_iff. now right.
Qed.

(** [connected_components] partitions the nodes into components. *)
Lemma connected_components_spec G : wf G ->
  Forall (is_component G) (connected_components G) /\
  NoDup (List.concat (connected_components G)) /\
  (forall v, In v (List.concat (connected_components G)) <-> In v (nodes G)).
Proof.
  intro Hwf.
  destruct (cc_loop_spec G Hwf (nodes G) []) as (F & ND & _ & CV).
  - apply incl_refl.
  - intros u w [].
  - repeat split; auto.
    + intro Hv. apply in_concat in Hv. destruct Hv as (c & Hc & Hv).
      rewrite Forall_forall in F. exact (is_component_nodes G c v Hwf (F c Hc) Hv).
    + intro Hv. destruct (CV v Hv) as [[] | H]. exact H.
Qed.

Lemma concat_nth_error {A : Type} (L : list (list A)) i c x :
  nth_error L i = Some c -> In x c -> In x (List.concat L).
Proof.
  intros H Hx. apply in_concat. exists c. split; [|assumption].
  now apply nth_error_In with i.
Qed.

(** In a partition an element tells its block. *)
Lemma concat_share {A : Type} (L : list (list A)) :
  NoDup (List.concat L) ->
  forall i j c c' x,
  nth_error L i = Some c -> nth_error L j = Some c' ->
  In x c -> In x c' -> i = j.
Proof.
  induction L as [|b L IH]; intros ND i j c c' x Hi Hj Hx Hx'.
  - destruct i; discriminate.
  - simpl in ND. apply NoDup_app_inv in ND. destruct ND as (_ & ND & DJ).
    destruct i as [|i], j as [|j]; simpl in Hi, Hj.
    + reflexivity.
    + inversion Hi; subst. exfalso. apply (DJ x Hx).
      now apply concat_nth_error with j c'.
    + inversion Hj; subst. exfalso. apply (DJ x Hx').
      now apply concat_nth_error with i c.
    + f_equal. now apply (IH ND i j c c' x).
Qed.

(** ** The rows of [cluster_graph] *)

Lemma cluster_graph_loop_In L k i u :
  In (mkClusterRow i u) (cluster_graph_loop L k) <->
  k <= i /\ exists c, nth_error L (i - k) = Some c /\ In u c.
Proof.
  revert k. induction L as [|b L IH]; intro k; simpl.
  - split; [intros [] | intros (_ & c & H & _)]. now destruct (i - k).
  - rewrite in_app_iff, in_map_iff, IH. split.
    + intros [(x & E & Hx) | (Hle & c & Hc & Hu)].
      * inversion E; subst. split; [lia|]. exists b. rewrite Nat.sub_diag. auto.
      * split; [lia|]. exists c. replace (i - k) with (S (i - S k)) by lia. auto.
    + intros (Hle & c & Hc & Hu).
      destruct (Nat.eq_dec i k) as [-> | Hne].
      * left. rewrite Nat.sub_diag in Hc. inversion Hc; subst. now exists u.
      * right. split; [lia|]. exists c.
        replace (i - k) with (S (i - S k)) in Hc by lia. auto.
Qed.

Lemma cluster_graph_loop_genomes L k :
  map cr_genome (cluster_graph_loop L k) = List.concat L.
Proof.
  revert k. induction L as [|b L IH]; intro k; simpl; [reflexivity|].
  rewrite map_app, map_map, IH. simpl. now rewrite map_id.
Qed.

Lemma cluster_graph_loop_ge L k i :
  In i (map cr_cluster (cluster_graph_loop L k)) -> k <= i.
Proof.
  intro H. apply in_map_iff in H. destruct H as ([j u] & <- & H).
  apply cluster_graph_loop_In in H. simpl. tauto.
Qed.

(** The cluster numbers are [0 .. n-1] for [n] components. *)
Lemma cluster_graph_loop_clusters L k :
  Forall (fun c => c <> []) L ->
  nunique (map cr_cluster (cluster_graph_loop L k)) = seq k (List.length L).
Proof.
  revert k. induction L as [|b L IH]; intros k HL; simpl; [reflexivity|].
  inversion HL as [|? ? Hb HL']; subst.
  rewrite map_app, map_map. simpl.
  replace (map (fun _ : string => k) b) with (repeat k (List.length b))
    by (clear; induction b; simpl; congruence).
  destruct b as [|x b]; [congruence|].
  change (List.length (x :: b)) with (S (List.length b)).
  unfold nunique. rewrite (unique_cons_const Nat.eqb Nat.eqb_eq).
  - f_equal. now apply IH.
  - intro H. apply cluster_graph_loop_ge in H. lia.
Qed.

Lemma n_clusters_cluster_graph G : wf G ->
  n_clusters (cluster_graph G) = List.length (connected_components G).
Proof.
  intro Hwf. unfold n_clusters, cluster_graph, connected_component_subgraphs.
  rewrite cluster_graph_loop_clusters; [apply length_seq|].
  destruct (connected_components_spec G Hwf) as (F & _).
  eapply Forall_impl; [|exact F]. intros c. apply is_component_nonempty.
Qed.

Lemma cluster_graph_genomes G :
  map cr_genome (cluster_graph G) = List.concat (connected_components G).
Proof. apply cluster_graph_loop_genomes. Qed.

Lemma cluster_graph_genome_In G g : wf G ->
  In g (map cr_genome (cluster_graph G)) <-> In g (nodes G).
Proof.
  intro Hwf. rewrite cluster_graph_genomes.
  now destruct (connected_components_spec G Hwf) as (_ & _ & H).
Qed.

Lemma cluster_graph_genome_NoDup G : wf G ->
  NoDup (map cr_genome (cluster_graph G)).
Proof.
  intro Hwf. rewrite cluster_graph_genomes.
  now destruct (connected_components_spec G Hwf) as (_ & H & _).
Qed.

(** Two genomes are given the same cluster number exactly when they are
    connected. *)
Lemma same_cluster_reach G u w : wf G ->
  same_cluster (cluster_graph G) u w <-> In u (nodes G) /\ reach G u w.
Proof.
  intro Hwf. destruct (connected_components_spec G Hwf) as (F & ND & CV).
  rewrite Forall_forall in F.
  unfold same_cluster, cluster_graph, connected_component_subgraphs. split.
  - intros (i & Hu & Hw). apply cluster_graph_loop_In in Hu, Hw.
    destruct Hu as (_ & c & Hc & Hu), Hw as (_ & c' & Hc' & Hw).
    rewrite Hc in Hc'. inversion Hc'; subst c'.
    assert (Hcomp : is_component G c) by (apply F; eapply nth_error_In; eauto).
    split.
    + now apply (is_component_nodes G c).
    + now apply (is_component_rel G c u w).
  - intros (Hu & Hreach). apply CV in Hu. apply in_concat in Hu.
    destruct Hu as (c & Hc & Hu). pose proof (F c Hc) as Hcomp.
    apply In_nth_error in Hc. destruct Hc as (i & Hi).
    exists i. rewrite !cluster_graph_loop_In, Nat.sub_0_r.
    split; (split; [lia|]); exists c; split; auto.
    now apply (is_component_rel G c u w).
Qed.

(** Every node has exactly one row. *)
Lemma cluster_graph_row G g : wf G -> In g (nodes G) ->
  exists i, filter (fun r => String.eqb (cr_genome r) g) (cluster_graph G)
            = [mkClusterRow i g].
Proof.
  intros Hwf Hg. apply (cluster_graph_genome_In G g Hwf) in Hg.
  apply in_map_iff in Hg. destruct Hg as ([i g'] & E & Hr). simpl in E. subst g'.
  exists i.
  apply (filter_key_unique String.eqb String.eqb_eq cr_genome _ (mkClusterRow i g));
    [now apply cluster_graph_genome_NoDup | assumption].
Qed.

Lemma cluster_graph_no_row G g : wf G -> ~ In g (nodes G) ->
  filter (fun r => String.eqb (cr_genome r) g) (cluster_graph G) = [].
Proof.
  intros Hwf Hg. apply (filter_key_absent String.eqb String.eqb_eq).
  now rewrite cluster_graph_genome_In.
Qed.

(** ** Comparing two graphs over the same table *)

Lemma reach_mono G G' s w :
  (forall u v, adjacent G u v -> adjacent G' u v \/ u = v) ->
  reach G s w -> reach G' s w.
Proof.
  intros Hadj H. induction H as [|v w _ IH Hvw]; [constructor|].
  destruct (Hadj v w Hvw) as [H | <-]; [|assumption].
  now apply reach_step with v.
Qed.

Lemma build_adjacent seeds E u v :
  adjacent (build seeds E) u v <-> In (u, v) E \/ In (v, u) E.
Proof. unfold adjacent. now rewrite build_edges. Qed.

(** Counting through a relation that is total and injective. *)
Lemma length_le_by_relation {A B : Type} (R : A -> B -> Prop) (l1 : list A) :
  forall l2 : list B,
  NoDup l1 ->
  (forall x, In x l1 -> exists y, In y l2 /\ R x y) ->
  (forall x x' y, In x l1 -> In x' l1 -> R x y -> R x' y -> x = x') ->
  List.length l1 <= List.length l2.
Proof.
  induction l1 as [|x l1 IH]; intros l2 ND Htot Hinj; simpl; [lia|].
  inversion ND as [|? ? Hx ND']; subst.
  destruct (Htot x (or_introl eq_refl)) as (y & Hy & Rxy).
  apply in_split in Hy. destruct Hy as (a & b & ->).
  rewrite length_app. simpl.
  enough (List.length l1 <= List.length (a ++ b)) by (rewrite length_app in *; lia).
  apply IH; [assumption | |].
  - intros x' Hx'. destruct (Htot x' (or_intror Hx')) as (y' & Hy' & Rxy').
    exists y'. split; [|assumption].
    apply in_app_iff in Hy'. apply in_app_iff.
    destruct Hy' as [H | [<- | H]]; auto.
    exfalso. apply Hx. rewrite (Hinj x x' y); auto. now left. now right.
  - intros x1 x2 y' H1 H2. apply Hinj; now right.
Qed.

Lemma NoDup_blocks {A : Type} (L : list (list A)) :
  NoDup (List.concat L) -> Forall (fun c => c <> []) L -> NoDup L.
Proof.
  induction L as [|b L IH]; intros ND HL; [constructor|].
  inversion HL as [|? ? Hb HL']; subst. simpl in ND.
  apply NoDup_app_inv in ND. destruct ND as (_ & ND & DJ).
  constructor; [|now apply IH].
  intro Hin. destruct b as [|x b]; [congruence|].
  apply (DJ x (or_introl eq_refl)). apply in_concat. exists (x :: b).
  split; [assumption | now left].
Qed.

(** Over the same seed nodes, a graph with fewer edges has at least as
    many components, provided every edge starts at a seed. *)
Lemma components_mono seeds E1 E2 :
  incl E2 E1 ->
  (forall e, In e E1 -> In (fst e) seeds) ->
  List.length (connected_components (build seeds E1))
  <= List.length (connected_components (build seeds E2)).
Proof.
  intros Hsub Hseed.
  set (G1 := build seeds E1). set (G2 := build seeds E2).
  destruct (connected_components_spec G1 (wf_build _ _)) as (F1 & ND1 & CV1).
  destruct (connected_components_spec G2 (wf_build _ _)) as (F2 & ND2 & CV2).
  rewrite Forall_forall in F1, F2.
  apply (length_le_by_relation
           (fun c1 c2 => is_component G2 c2 /\
                         exists s, In s seeds /\ In s c1 /\ In s c2)).
  - apply NoDup_blocks; [assumption|]. apply Forall_forall.
    intros c Hc. apply (is_component_nonempty G1). auto.
  - intros c1 Hc1. pose proof (F1 c1 Hc1) as Hcomp.
    assert (Hs : exists s, In s seeds /\ In s c1).
    { destruct Hcomp as (_ & s0 & Hs0 & Hrel).
      apply build_In in Hs0. destruct Hs0 as [Hs0 | ([a b] & He & Hs0)].
      - exists s0. split; [assumption|]. apply Hrel. constructor.
      - exists a. split; [exact (Hseed _ He)|]. apply Hrel. simpl in Hs0.
        destruct Hs0 as [-> | ->]; [constructor|].
        apply reach_step with b; [constructor|].
        apply build_adjacent. now right. }
    destruct Hs as (s & Hs & Hsc).
    assert (Hn : In s (nodes G2)) by (apply build_In; now left).
    apply CV2 in Hn. apply in_concat in Hn. destruct Hn as (c2 & Hc2 & Hsc2).
    exists c2. split; [assumption|]. split; [now apply F2 | now exists s].
  - intros c1 c1' c2 Hc1 Hc1' (Hc2 & s & _ & Hs1 & Hs2) (_ & s' & _ & Hs1' & Hs2').
    assert (Hreach : reach G1 s s').
    { apply reach_mono with G2.
      - intros u v Huv. left. apply build_adjacent. apply build_adjacent in Huv.
        destruct Huv as [H | H]; [left | right]; now apply Hsub.
      - now apply (is_component_rel G2 c2 s s'). }
    apply (is_component_rel G1 c1 s s' (F1 c1 Hc1) Hs1) in Hreach.
    apply In_nth_error in Hc1, Hc1'.
    destruct Hc1 as (i & Hi), Hc1' as (j & Hj).
    assert (i = j) by (eapply (concat_share _ ND1 i j c1 c1' s'); eassumption).
    subst j. congruence.
Qed.

Lemma Qgtb_spec a b : Qgtb a b = true <-> (b < a)%Q.
Proof.
  unfold Qgtb. rewrite Qlt_alt, <- (Qcompare_antisym a b).
  destruct (a ?= b)%Q; cbn [CompOpp]; split; intro H;
    first [reflexivity | discriminate].
Qed.

Lemma Qgtb_mono a t1 t2 : (t1 <= t2)%Q -> Qgtb a t2 = true -> Qgtb a t1 = true.
Proof.
  rewrite !Qgtb_spec. intros H1 H2. now apply Qle_lt_trans with t2.
Qed.

(** ** The graph builders *)

Lemma mash_edges_In df t e :
  In e (mash_edges df t) <->
  exists r, In r df /\ Qgtb (similarity r) t = true /\ e = (genome1 r, genome2 r).
Proof.
  unfold mash_edges. rewrite in_map_iff. split.
  - intros (r & <- & Hr). apply filter_In in Hr. exists r. tauto.
  - intros (r & Hr & Hp & ->). exists r. rewrite filter_In. auto.
Qed.

Lemma anin_edges_In df c a e :
  In e (anin_edges df c a) <->
  exists r, In r df /\ Qgtb (ref_coverage r) c = true /\ Qgtb (ani r) a = true
            /\ e = (reference r, querry r).
Proof.
  unfold anin_edges. rewrite in_map_iff. split.
  - intros (r & <- & Hr). apply filter_In in Hr. destruct Hr as (Hr & Hp).
    apply andb_true_iff in Hp. exists r. tauto.
  - intros (r & Hr & Hc & Ha & ->). exists r. rewrite filter_In, Hc, Ha. auto.
Qed.

Lemma make_graph_nodes df t g :
  In g (nodes (make_graph df t)) <->
  In g (map genome1 df) \/
  exists r, In r df /\ Qgtb (similarity r) t = true /\ genome2 r = g.
Proof.
  rewrite make_graph_build, build_In, sunique_In. split.
  - intros [H | (e & He & H)]; [now left|].
    apply mash_edges_In in He. destruct He as (r & Hr & Hp & ->). simpl in H.
    destruct H as [-> | ->]; [left; now apply in_map | right; eauto].
  - intros [H | (r & Hr & Hp & <-)]; [now left|].
    right. exists (genome1 r, genome2 r). split; [|now right].
    apply mash_edges_In. eauto.
Qed.

Lemma make_graph_anin_nodes df c a g :
  In g (nodes (make_graph_anin df c a)) <->
  In g (map reference df) \/
  exists r, In r df /\ Qgtb (ref_coverage r) c = true /\ Qgtb (ani r) a = true
            /\ querry r = g.
Proof.
  rewrite make_graph_anin_build, build_In, sunique_In. split.
  - intros [H | (e & He & H)]; [now left|].
    apply anin_edges_In in He. destruct He as (r & Hr & Hc & Ha & ->). simpl in H.
    destruct H as [-> | ->]; [left; now apply in_map | right; eauto 6].
  - intros [H | (r & Hr & Hc & Ha & <-)]; [now left|].
    right. exists (reference r, querry r). split; [|now right].
    apply anin_edges_In. eauto 6.
Qed.

(** C7 (as the code has it): the graph builders take no node set and have
    no failure path. The nodes of the graph are the first-column genomes
    ([genome1], resp. [reference]) of all rows together with the
    second-column genome of every row that passes the threshold test, which
    [add_edge] inserts as a new node when it is not one already. *)
Theorem graph_builders_nodes :
  (forall df t g,
     In g (nodes (make_graph df t)) <->
     In g (map genome1 df) \/
     exists r, In r df /\ Qgtb (similarity r) t = true /\ genome2 r = g) /\
  (forall df c a g,
     In g (nodes (make_graph_anin df c a)) <->
     In g (map reference df) \/
     exists r, In r df /\ Qgtb (ref_coverage r) c = true /\
               Qgtb (ani r) a = true /\ querry r = g).
Proof. split; [apply make_graph_nodes | apply make_graph_anin_nodes]. Qed.

(** C7, counterexample: the only row names [B], which is not among the
    seeded nodes; [make_graph] returns a graph in which [B] is a node. *)
Lemma make_graph_creates_unknown_node :
  sunique (map genome1 [mash_row "A" "B" 0.95]) = ["A"] /\
  nodes (make_graph [mash_row "A" "B" 0.95] 0.9) = ["A"; "B"] /\
  edges (make_graph [mash_row "A" "B" 0.95] 0.9) = [("A", "B")].
Proof. repeat split. Qed.

Lemma isolated_spec df t g r :
  isolated df t g = true -> In r df -> Qgtb (similarity r) t = true ->
  genome1 r = g \/ genome2 r = g -> genome1 r = genome2 r.
Proof.
  unfold isolated. rewrite forallb_forall. intros H Hr Hp Hg.
  specialize (H r Hr). rewrite Hp in H. simpl in H.
  apply orb_true_iff in H. destruct H as [H | H]; [|now apply String.eqb_eq].
  apply negb_true_iff, orb_false_iff in H. destruct H as (H1 & H2).
  apply String.eqb_neq in H1, H2. tauto.
Qed.

Lemma isolated_anin_spec df c a g r :
  isolated_anin df c a g = true -> In r df ->
  Qgtb (ref_coverage r) c = true -> Qgtb (ani r) a = true ->
  reference r = g \/ querry r = g -> reference r = querry r.
Proof.
  unfold isolated_anin. rewrite forallb_forall. intros H Hr Hc Ha Hg.
  specialize (H r Hr). rewrite Hc, Ha in H. simpl in H.
  apply orb_true_iff in H. destruct H as [H | H]; [|now apply String.eqb_eq].
  apply negb_true_iff, orb_false_iff in H. destruct H as (H1 & H2).
  apply String.eqb_neq in H1, H2. tauto.
Qed.

(** A node that no inserted edge joins to another node is alone in its
    cluster. *)
Lemma build_isolated_singleton seeds E g :
  In g (nodes (build seeds E)) ->
  (forall e, In e E -> fst e = g \/ snd e = g -> fst e = snd e) ->
  exists i, forall w,
    In (mkClusterRow i w) (cluster_graph (build seeds E)) <-> w = g.
Proof.
  intros Hnode Hiso.
  pose proof (wf_build seeds E) as Hwf.
  destruct (cluster_graph_row _ g Hwf Hnode) as (i & Hrow).
  assert (Hin : In (mkClusterRow i g) (cluster_graph (build seeds E))).
  { eapply (proj1 (filter_In _ _ _)). rewrite Hrow. now left. }
  exists i. intro w. split; [|now intros ->].
  intro Hw.
  assert (Hreach : reach (build seeds E) g w).
  { apply (same_cluster_reach _ g w Hwf). now exists i. }
  clear - Hreach Hiso. induction Hreach as [|v w _ IH Hadj]; [reflexivity|].
  subst v. apply build_adjacent in Hadj.
  destruct Hadj as [H | H]; pose proof (Hiso _ H) as Hs; simpl in Hs.
  - symmetry. apply Hs. now left.
  - apply Hs. now right.
Qed.

(** A genome that is no node has no row in the clustering. *)
Lemma not_node_no_row G g :
  wf G -> ~ In g (nodes G) ->
  ~ In g (nodes G) /\ ~ In g (map cr_genome (cluster_graph G)).
Proof.
  intros Hwf Hg. split; [assumption|]. now rewrite cluster_graph_genome_In.
Qed.

Lemma make_graph_genome df t g :
  (In g (map genome1 df) ->
   In g (nodes (make_graph df t)) /\
   (isolated df t g = true ->
    exists i, forall w,
      In (mkClusterRow i w) (cluster_graph (make_graph df t)) <-> w = g)) /\
  (~ In g (map genome1 df) -> second_of_passing_row df t g = false ->
   ~ In g (nodes (make_graph df t)) /\
   ~ In g (map cr_genome (cluster_graph (make_graph df t)))).
Proof.
  split.
  - intro Hg.
    assert (Hnode : In g (nodes (make_graph df t)))
      by (apply make_graph_nodes; now left).
    split; [assumption|]. intro Hiso.
    rewrite make_graph_build in Hnode |- *.
    apply build_isolated_singleton; [assumption|].
    intros e He Hend. apply mash_edges_In in He.
    destruct He as (r & Hr & Hp & ->). simpl in *.
    now apply (isolated_spec df t g r).
  - intros Hg Hsec. apply not_node_no_row; [apply wf_make_graph|].
    intro Hnode. apply make_graph_nodes in Hnode.
    destruct Hnode as [H | (r & Hr & Hp & E)]; [contradiction|].
    assert (Hs : second_of_passing_row df t g = true).
    { apply existsb_exists. exists r. split; [assumption|].
      rewrite Hp. simpl. now apply String.eqb_eq. }
    congruence.
Qed.

Lemma make_graph_anin_genome df c a g :
  (In g (map reference df) ->
   In g (nodes (make_graph_anin df c a)) /\
   (isolated_anin df c a g = true ->
    exists i, forall w,
      In (mkClusterRow i w) (cluster_graph (make_graph_anin df c a)) <-> w = g)) /\
  (~ In g (map reference df) -> querry_of_passing_row df c a g = false ->
   ~ In g (nodes (make_graph_anin df c a)) /\
   ~ In g (map cr_genome (cluster_graph (make_graph_anin df c a)))).
Proof.
  split.
  - intro Hg.
    assert (Hnode : In g (nodes (make_graph_anin df c a)))
      by (apply make_graph_anin_nodes; now left).
    split; [assumption|]. intro Hiso.
    rewrite make_graph_anin_build in Hnode |- *.
    apply build_isolated_singleton; [assumption|].
    intros e He Hend. apply anin_edges_In in He.
    destruct He as (r & Hr & Hc & Ha & ->). simpl in *.
    now apply (isolated_anin_spec df c a g r).
  - intros Hg Hsec. apply not_node_no_row; [apply wf_make_graph_anin|].
    intro Hnode. apply make_graph_anin_nodes in Hnode.
    destruct Hnode as [H | (r & Hr & Hc & Ha & E)]; [contradiction|].
    assert (Hs : querry_of_passing_row df c a g = true).
    { apply existsb_exists. exists r. split; [assumption|].
      rewrite Hc, Ha. simpl. now apply String.eqb_eq. }
    congruence.
Qed.

(** C2 (as the code has it): the graph builders take no genome set. For
    [make_graph] and for [make_graph_anin] alike: a genome named in the
    first column ([genome1], resp. [reference]) of any row, passing or not,
    is a node of the graph, and when no passing row joins it to another
    genome its cluster holds that genome alone; a genome that heads no row
    and is the second genome ([genome2], resp. [querry]) of no passing row
    is no node of the graph and has no row in the clustering. *)
Theorem isolated_genome_singleton :
  (forall df t g,
     (In g (map genome1 df) ->
      In g (nodes (make_graph df t)) /\
      (isolated df t g = true ->
       exists i, forall w,
         In (mkClusterRow i w) (cluster_graph (make_graph df t)) <-> w = g)) /\
     (~ In g (map genome1 df) -> second_of_passing_row df t g = false ->
      ~ In g (nodes (make_graph df t)) /\
      ~ In g (map cr_genome (cluster_graph (make_graph df t))))) /\
  (forall df c a g,
     (In g (map reference df) ->
      In g (nodes (make_graph_anin df c a)) /\
      (isolated_anin df c a g = true ->
       exists i, forall w,
         In (mkClusterRow i w) (cluster_graph (make_graph_anin df c a)) <-> w = g)) /\
     (~ In g (map reference df) -> querry_of_passing_row df c a g = false ->
      ~ In g (nodes (make_graph_anin df c a)) /\
      ~ In g (map cr_genome (cluster_graph (make_graph_anin df c a))))).
Proof. split; [apply make_graph_genome | apply make_graph_anin_genome]. Qed.

Lemma isolated_genome_singleton_witness :
  let df := [mash_row "A" "A" 1; mash_row "A" "B" 0.95; mash_row "B" "A" 0.95;
             mash_row "C" "A" 0.4; mash_row "C" "C" 1; mash_row "A" "D" 0.5] in
  let nd := [delta_row "A" "A" 1 1; delta_row "B" "A" 0.9 0.995;
             delta_row "A" "B" 0.9 0.995; delta_row "C" "C" 1 1;
             delta_row "A" "C" 0.9 0.97; delta_row "D" "A" 0.3 0.999] in
  (In "C" (nodes (make_graph df 0.9)) /\
   exists i, forall w,
     In (mkClusterRow i w) (cluster_graph (make_graph df 0.9)) <-> w = "C") /\
  (~ In "D" (nodes (make_graph df 0.9)) /\
   ~ In "D" (map cr_genome (cluster_graph (make_graph df 0.9)))) /\
  (In "C" (nodes (make_graph_anin nd 0.5 0.99)) /\
   exists i, forall w,
     In (mkClusterRow i w) (cluster_graph (make_graph_anin nd 0.5 0.99)) <-> w = "C") /\
  (~ In "D" (nodes (make_graph_anin nd 0.5 0.99)) /\
   ~ In "D" (map cr_genome (cluster_graph (make_graph_anin nd 0.5 0.99)))).
Proof.
  intros df nd.
  pose proof (proj1 isolated_genome_singleton df 0.9%Q "C") as (HC & _).
  pose proof (proj1 isolated_genome_singleton df 0.9%Q "D") as (_ & HD).
  pose proof (proj2 isolated_genome_singleton nd 0.5%Q 0.99%Q "C") as (HC' & _).
  pose proof (proj2 isolated_genome_singleton nd 0.5%Q 0.99%Q "D") as (_ & HD').
  assert (HinC : In "C" (map genome1 df)) by (simpl; auto 10).
  assert (HinC' : In "C" (map reference nd)) by (simpl; auto 10).
  assert (HoutD : ~ In "D" (map genome1 df)) by (simpl; intuition discriminate).
  assert (HoutD' : ~ In "D" (map reference nd)) by (simpl; intuition discriminate).
  destruct (HC HinC) as (HnC & HsC). destruct (HC' HinC') as (HnC' & HsC').
  split; [split; [exact HnC | exact (HsC eq_refl)]|].
  split; [exact (HD HoutD eq_refl)|].
  split; [split; [exact HnC' | exact (HsC' eq_refl)]|].
  exact (HD' HoutD' eq_refl).
Defined.

(** C2, counterexample: [B] belongs to the genome set and is named by a
    row, but the row fails the threshold and [B] heads no row; the graph
    has no node for it and the clustering has no row for it. *)
Lemma genome_without_node :
  smem "B" ["A"; "B"] = true /\
  nodes (make_graph [mash_row "A" "B" 0.5] 0.9) = ["A"] /\
  cluster_graph (make_graph [mash_row "A" "B" 0.5] 0.9) = [mkClusterRow 0 "A"].
Proof. repeat split. Qed.

(** ** Threshold monotonicity *)

(** C8: raising the threshold of [make_graph] never lowers the number of
    distinct clusters [cluster_graph] produces from the same table. *)
Theorem threshold_monotone df t1 t2 :
  (t1 <= t2)%Q ->
  n_clusters (cluster_graph (make_graph df t1))
  <= n_clusters (cluster_graph (make_graph df t2)).
Proof.
  intro Hle.
  rewrite !n_clusters_cluster_graph by apply wf_make_graph.
  rewrite !make_graph_build. apply components_mono.
  - intros e He. apply mash_edges_In in He. destruct He as (r & Hr & Hp & ->).
    apply mash_edges_In. exists r. repeat split; auto.
    now apply Qgtb_mono with t2.
  - intros e He. apply mash_edges_In in He. destruct He as (r & Hr & _ & ->).
    simpl. apply sunique_In. now apply in_map.
Qed.

Lemma threshold_monotone_witness :
  let df := [mash_row "A" "A" 1; mash_row "A" "B" 0.95; mash_row "A" "C" 0.6;
             mash_row "B" "A" 0.95; mash_row "B" "B" 1; mash_row "B" "C" 0.6;
             mash_row "C" "A" 0.6; mash_row "C" "B" 0.6; mash_row "C" "C" 1] in
  (0.5 <= 0.9)%Q /\
  n_clusters (cluster_graph (make_graph df 0.5))
  <= n_clusters (cluster_graph (make_graph df 0.9)).
Proof.
  intro df.
  assert (H : (0.5 <= 0.9)%Q) by (vm_compute; discriminate).
  split; [exact H | apply (threshold_monotone df 0.5 0.9 H)].
Defined.

(** Raising either threshold of [make_graph_anin] never lowers the number
    of distinct clusters either. *)
Lemma fine_threshold_monotone df c1 c2 a1 a2 :
  (c1 <= c2)%Q -> (a1 <= a2)%Q ->
  n_clusters (cluster_graph (make_graph_anin df c1 a1))
  <= n_clusters (cluster_graph (make_graph_anin df c2 a2)).
Proof.
  intros Hc Ha.
  rewrite !n_clusters_cluster_graph by apply wf_make_graph_anin.
  rewrite !make_graph_anin_build. apply components_mono.
  - intros e He. apply anin_edges_In in He.
    destruct He as (r & Hr & Hpc & Hpa & ->).
    apply anin_edges_In. exists r. repeat split; auto.
    + now apply Qgtb_mono with c2.
    + now apply Qgtb_mono with a2.
  - intros e He. apply anin_edges_In in He. destruct He as (r & Hr & _ & _ & ->).
    simpl. apply sunique_In. now apply in_map.
Qed.

Lemma fine_threshold_monotone_witness :
  let rows := [mkDeltaRow "A" "A" 1000 0 (10 # 11) (10 # 11) 1;
               mkDeltaRow "A" "B" 1000 30 (10 # 11) (10 # 11) 0.97;
               mkDeltaRow "B" "A" 1000 30 (10 # 11) (10 # 11) 0.97;
               mkDeltaRow "B" "B" 1000 0 (10 # 11) (10 # 11) 1] in
  n_clusters (cluster_graph (make_graph_anin rows 0.5 0.95))
  <= n_clusters (cluster_graph (make_graph_anin rows 0.5 0.99)).
Proof.
  intro rows.
  apply (fine_threshold_monotone rows 0.5 0.5 0.95 0.99);
    vm_compute; discriminate.
Defined.

(** Every node of the graph has exactly one row in the clustering of
    [cluster_graph]. *)
Lemma make_graph_node_one_row df t g :
  In g (nodes (make_graph df t)) ->
  exists i,
    filter (fun r => String.eqb (cr_genome r) g) (cluster_graph (make_graph df t))
    = [mkClusterRow i g].
Proof. apply cluster_graph_row, wf_make_graph. Qed.

Lemma make_graph_node_one_row_witness :
  exists i,
    filter (fun r => String.eqb (cr_genome r) "B")
           (cluster_graph (make_graph [mash_row "A" "B" 0.95; mash_row "C" "C" 1] 0.9))
    = [mkClusterRow i "B"].
Proof.
  apply (make_graph_node_one_row [mash_row "A" "B" 0.95; mash_row "C" "C" 1] 0.9 "B").
  simpl. auto.
Defined.

(** ** Self-pair rows *)

Lemma drop_self_pairs_In r df :
  In r (drop_self_pairs df) <-> In r df /\ genome1 r <> genome2 r.
Proof.
  unfold drop_self_pairs. rewrite filter_In, negb_true_iff, String.eqb_neq. tauto.
Qed.

Lemma self_pairs_covered_heads df g :
  self_pairs_covered df = true ->
  In g (map genome1 df) -> In g (map genome1 (drop_self_pairs df)).
Proof.
  unfold self_pairs_covered. rewrite forallb_forall. intros H Hg.
  apply in_map_iff in Hg. destruct Hg as (r & <- & Hr).
  specialize (H r Hr). apply orb_true_iff in H. destruct H as [H | H].
  - apply in_map. apply drop_self_pairs_In. split; [assumption|].
    now apply String.eqb_neq, negb_true_iff.
  - now apply smem_In.
Qed.

(** C9 (as the code has it): when every genome named by a self-pair row
    also heads a row that is not a self pair, the clustering groups the
    genomes identically with and without the self-pair rows. Cluster
    numbers follow the order of first appearance in [genome1] and may be
    renumbered. *)
Theorem self_pairs_irrelevant df t :
  self_pairs_covered df = true ->
  forall u w,
    same_cluster (cluster_graph (make_graph df t)) u w <->
    same_cluster (cluster_graph (make_graph (drop_self_pairs df) t)) u w.
Proof.
  intros Hcov u w.
  rewrite !same_cluster_reach by apply wf_make_graph.
  assert (Hnodes : forall x, In x (nodes (make_graph df t)) <->
                             In x (nodes (make_graph (drop_self_pairs df) t))).
  { intro x. rewrite !make_graph_nodes. split.
    - intros [H | (r & Hr & Hp & <-)].
      + left. now apply self_pairs_covered_heads.
      + destruct (String.eqb_spec (genome1 r) (genome2 r)) as [E | E].
        * left. apply self_pairs_covered_heads; [assumption|].
          rewrite <- E. now apply in_map.
        * right. exists r. rewrite drop_self_pairs_In. auto.
    - intros [H | (r & Hr & Hp & <-)].
      + left. apply in_map_iff in H. destruct H as (r & <- & Hr).
        apply drop_self_pairs_In in Hr. apply in_map. tauto.
      + right. exists r. apply drop_self_pairs_In in Hr. tauto. }
  assert (Hsub : forall e, In e (mash_edges (drop_self_pairs df) t) ->
                           In e (mash_edges df t)).
  { intros e He. apply mash_edges_In in He. destruct He as (r & Hr & Hp & ->).
    apply mash_edges_In. exists r. apply drop_self_pairs_In in Hr. tauto. }
  assert (Hsup : forall a b, In (a, b) (mash_edges df t) ->
                             In (a, b) (mash_edges (drop_self_pairs df) t) \/ a = b).
  { intros a b He. apply mash_edges_In in He. destruct He as (r & Hr & Hp & E).
    inversion E; subst.
    destruct (String.eqb_spec (genome1 r) (genome2 r)) as [E' | E']; [now right|].
    left. apply mash_edges_In. exists r. rewrite drop_self_pairs_In. auto. }
  rewrite Hnodes. split; intros (Hu & Hr); (split; [assumption|]);
    revert Hr; apply reach_mono; intros a b Hab;
    rewrite make_graph_build in *; rewrite build_adjacent in *.
  - destruct Hab as [H | H]; destruct (Hsup _ _ H); auto.
  - left. destruct Hab as [H | H]; [left | right]; now apply Hsub.
Qed.

Lemma self_pairs_irrelevant_witness :
  let df := [mash_row "A" "A" 1; mash_row "A" "B" 0.95; mash_row "A" "C" 0.6;
             mash_row "B" "A" 0.95; mash_row "B" "B" 1; mash_row "B" "C" 0.6;
             mash_row "C" "A" 0.6; mash_row "C" "B" 0.6; mash_row "C" "C" 1] in
  same_cluster (cluster_graph (make_graph df 0.9)) "A" "B" <->
  same_cluster (cluster_graph (make_graph (drop_self_pairs df) 0.9)) "A" "B".
Proof.
  intro df. apply (self_pairs_irrelevant df 0.9). reflexivity.
Defined.

(** C9, counterexample: a table whose only row is a self pair clusters to
    one cluster holding [A]; without the row the clustering is empty. In
    the second table the self pair of [A] comes first, and dropping it
    renumbers the clusters. *)
Lemma self_pair_row_changes_clustering :
  cluster_database [mash_row "A" "A" 1] 0.9 = [mkCdbRow 0 "A"] /\
  cluster_database (drop_self_pairs [mash_row "A" "A" 1]) 0.9 = [] /\
  cluster_database
    [mash_row "A" "A" 1; mash_row "B" "A" 0.4; mash_row "A" "B" 0.4] 0.9
    = [mkCdbRow 0 "A"; mkCdbRow 1 "B"] /\
  cluster_database
    (drop_self_pairs
       [mash_row "A" "A" 1; mash_row "B" "A" 0.4; mash_row "A" "B" 0.4]) 0.9
    = [mkCdbRow 0 "B"; mkCdbRow 1 "A"].
Proof. repeat split. Qed.

(** ** The delta parser *)

Lemma parse_delta_loop_skip pre line post :
  match line with
  | [] => false
  | line0 :: _ =>
      String.eqb line0 "NUCMER" || startswith ">" line0
      || negb (Nat.eqb (List.length line) 7)
  end = true ->
  forall a e,
  parse_delta_loop (pre ++ line :: post) a e = parse_delta_loop (pre ++ post) a e.
Proof.
  intro Hskip. induction pre as [|l pre IH]; intros a e.
  - cbn [app parse_delta_loop]. destruct line as [|line0 line']; [discriminate|].
    destruct (String.eqb line0 "NUCMER" || startswith ">" line0); [reflexivity|].
    cbn [orb] in Hskip. apply negb_true_iff in Hskip. now rewrite Hskip.
  - cbn [app parse_delta_loop]. destruct l as [|l0 l']; [reflexivity|].
    destruct (String.eqb l0 "NUCMER" || startswith ">" l0); [apply IH|].
    destruct (Nat.eqb (List.length (l0 :: l')) 7); [|apply IH].
    destruct (py_int (nth 1 (l0 :: l') "")); [|reflexivity].
    destruct (py_int (nth 0 (l0 :: l') "")); [|reflexivity].
    destruct (py_int (nth 4 (l0 :: l') "")); [|reflexivity].
    apply IH.
Qed.

(** C6 (as the code has it): [parse_delta] passes over every non-blank
    line that is a header or does not have seven fields: the line changes
    neither the totals nor whether the parse fails. Only seven-field lines
    that are not headers are read as records. *)
Theorem parse_delta_skips_line pre l post :
  skipped_line l = true ->
  parse_delta (pre ++ l :: post) = parse_delta (pre ++ post).
Proof.
  intro H. unfold parse_delta. rewrite !map_app. simpl.
  apply parse_delta_loop_skip. exact H.
Qed.

Lemma parse_delta_skips_line_witness :
  parse_delta (["/g/A.fna /g/B.fna"; "NUCMER"; ">c1 c2 1100 1100"]
               ++ "1 101 1 101 3 3" :: ["1 101 1 101 3 3 0"; "0"])
  = parse_delta (["/g/A.fna /g/B.fna"; "NUCMER"; ">c1 c2 1100 1100"]
                 ++ ["1 101 1 101 3 3 0"; "0"]).
Proof.
  apply (parse_delta_skips_line _ "1 101 1 101 3 3"). reflexivity.
Defined.

(** C6, counterexample: the fourth line is a content line of six fields;
    [parse_delta] returns the totals of the remaining record line. *)
Lemma parse_delta_accepts_short_record :
  List.length (split_ws "1 101 1 101 3 3") = 6 /\
  parse_delta ["/g/A.fna /g/B.fna"; "NUCMER"; ">c1 c2 1100 1100";
               "1 101 1 101 3 3"; "201 301 201 301 2 2 0"; "0"]
  = Ok (100%Z, 2%Z).
Proof. split; reflexivity. Qed.

(** The value [process_deltadir] returns is the table of the loop; the
    flag is not part of it. *)
Lemma process_deltadir_returns_table files org_lengths Table :
  process_deltadir files org_lengths = Ok Table <->
  exists zero_error,
    process_deltadir_loop files org_lengths [] false = Ok (Table, zero_error).
Proof.
  unfold process_deltadir.
  destruct (process_deltadir_loop files org_lengths [] false) as [[T z] | e];
    simpl; split.
  - intro H. inversion H; subst. now exists z.
  - intros (z' & H). now inversion H.
  - discriminate.
  - intros (z' & H). discriminate.
Qed.




(** C5, at the failing input: the delta file of the pair (A, B) holds no
    aligned region. The loop ends with a row of identity [0] and the flag
    [zero_error] set; [process_deltadir] returns the table alone. *)
Theorem zero_error_flag_not_returned :
  let deltafiles := [("out/0/A_vs_B.delta",
                      ["/g/A.fna /g/B.fna"; "NUCMER"])] in
  let org_lengths := [("A", 1100%Z); ("B", 1200%Z)] in
  process_deltadir_loop deltafiles org_lengths [] false
  = Ok ([mkDeltaRow "A" "B" 0 0 0 0 0], true) /\
  process_deltadir deltafiles org_lengths
  = Ok [mkDeltaRow "A" "B" 0 0 0 0 0].
Proof. split; reflexivity. Qed.









(** The exception is not caught by the caller of the parser. *)
Lemma run_anin_loop_propagates W ANIn_folder org_lengths cluster rest Ndb e :
  process_deltadir
    (glob_delta W (ANIn_folder ++ string_of_nat cluster ++ "/")%string)
    org_lengths = Raise e ->
  run_anin_loop W ANIn_folder org_lengths (cluster :: rest) Ndb = Raise e.
Proof. intro H. simpl. now rewrite H. Qed.

(** ** The fine pass and the final merge *)

Lemma filter_flat_map {A B : Type} (p : B -> bool) (h : A -> list B) (l : list A) :
  filter p (flat_map h l) = flat_map (fun x => filter p (h x)) l.
Proof.
  induction l as [|a l IH]; simpl; [reflexivity|].
  now rewrite filter_app, IH.
Qed.

Lemma filter_map_swap' {A B : Type} (p : B -> bool) (f : A -> B) (l : list A) :
  filter p (map f l) = map f (filter (fun a => p (f a)) l).
Proof.
  induction l as [|a l IH]; simpl; [reflexivity|].
  rewrite IH. now destruct (p (f a)).
Qed.

Lemma filter_filter_swap {A : Type} (p q : A -> bool) (l : list A) :
  filter p (filter q l) = filter q (filter p l).
Proof.
  induction l as [|a l IH]; simpl; [reflexivity|].
  destruct (q a) eqn:Eq, (p a) eqn:Ep; simpl; rewrite ?Eq, ?Ep, IH; reflexivity.
Qed.

Lemma flat_map_nil {A B : Type} (h : A -> list B) (l : list A) :
  (forall x, In x l -> h x = []) -> flat_map h l = [].
Proof.
  induction l as [|a l IH]; simpl; intro H; [reflexivity|].
  rewrite (H a (or_introl eq_refl)), IH; auto.
Qed.

(** A loop in which exactly one iteration appends something. *)
Lemma flat_map_single {A B : Type} (h : A -> list B) (l : list A) (a : A) (y : list B) :
  NoDup l -> In a l -> h a = y ->
  (forall b, In b l -> b <> a -> h b = []) ->
  flat_map h l = y.
Proof.
  induction l as [|x l IH]; simpl; intros ND Hin Ha Hrest; [contradiction|].
  inversion ND as [|? ? Hx ND']; subst.
  destruct Hin as [-> | Hin].
  - rewrite flat_map_nil, app_nil_r; [reflexivity|].
    intros b Hb. apply Hrest; [now right|]. intros ->. contradiction.
  - rewrite (Hrest x (or_introl eq_refl)); [|intros ->; contradiction].
    simpl. apply IH; auto.
Qed.

Lemma Cdb_cluster_unique Cdb g c c' :
  NoDup (map genome Cdb) ->
  In (mkCdbRow c g) Cdb -> In (mkCdbRow c' g) Cdb -> c = c'.
Proof.
  induction Cdb as [|r Cdb IH]; simpl; intros ND H H'; [contradiction|].
  inversion ND as [|? ? Hr ND']; subst.
  destruct H as [-> | H], H' as [E | H'].
  - now inversion E.
  - exfalso. apply Hr. simpl. change g with (genome (mkCdbRow c' g)). now apply in_map.
  - subst r. exfalso. apply Hr. simpl. change g with (genome (mkCdbRow c g)).
    now apply in_map.
  - now apply IH.
Qed.

Lemma mash_cluster_of_In Cdb g c :
  NoDup (map genome Cdb) -> In (mkCdbRow c g) Cdb -> mash_cluster_of Cdb g = Some c.
Proof.
  intros ND Hin. unfold mash_cluster_of.
  destruct (find (fun c0 => String.eqb (genome c0) g) Cdb) as [[c' g']|] eqn:E.
  - apply find_some in E. destruct E as (Hin' & E). simpl in E.
    apply String.eqb_eq in E. subst g'. simpl. f_equal.
    now apply (Cdb_cluster_unique Cdb g).
  - exfalso. apply (find_none _ _ E) in Hin. simpl in Hin.
    now rewrite String.eqb_refl in Hin.
Qed.

Lemma members_In Cdb c g :
  In g (map genome (filter (fun r => Nat.eqb (MASH_cluster r) c) Cdb)) <->
  In (mkCdbRow c g) Cdb.
Proof.
  rewrite in_map_iff. split.
  - intros ([c' g'] & E & H). apply filter_In in H. simpl in *.
    destruct H as (H & Ec). apply Nat.eqb_eq in Ec. now subst.
  - intro H. exists (mkCdbRow c g). split; [reflexivity|].
    apply filter_In. split; [assumption|]. simpl. apply Nat.eqb_refl.
Qed.

Lemma regroup_inner df label g clust :
  filter (fun x : string * string => String.eqb (fst x) g)
         (map (fun genome => (genome, label clust))
              (map cr_genome (filter (fun r => Nat.eqb (cr_cluster r) clust) df)))
  = map (fun genome => (genome, label clust))
        (map cr_genome
             (filter (fun r => Nat.eqb (cr_cluster r) clust)
                     (filter (fun r => String.eqb (cr_genome r) g) df))).
Proof.
  rewrite !filter_map_swap'. simpl. now rewrite filter_filter_swap.
Qed.

Lemma regroup_one df label g f :
  filter (fun r => String.eqb (cr_genome r) g) df = [mkClusterRow f g] ->
  filter (fun x => String.eqb (fst x) g) (regroup df label) = [(g, label f)].
Proof.
  intro H. unfold regroup. rewrite filter_flat_map.
  apply flat_map_single with f.
  - apply nunique_NoDup.
  - apply nunique_In.
    assert (Hin : In (mkClusterRow f g) df).
    { eapply (proj1 (filter_In _ _ _)). rewrite H. now left. }
    change f with (cr_cluster (mkClusterRow f g)). now apply in_map.
  - rewrite regroup_inner, H. simpl. now rewrite Nat.eqb_refl.
  - intros b _ Hb. rewrite regroup_inner, H. simpl.
    destruct (Nat.eqb_spec f b); [congruence | reflexivity].
Qed.

Lemma regroup_none df label g :
  filter (fun r => String.eqb (cr_genome r) g) df = [] ->
  filter (fun x => String.eqb (fst x) g) (regroup df label) = [].
Proof.
  intro H. unfold regroup. rewrite filter_flat_map.
  apply flat_map_nil. intros b _. now rewrite regroup_inner, H.
Qed.

Lemma anin_cluster_rows_regroup Cdb Ndb ANIn cov cluster :
  anin_cluster_rows Cdb Ndb ANIn cov cluster
  = regroup (cluster_graph (fine_graph Cdb Ndb ANIn cov cluster))
            (format_cluster cluster).
Proof. reflexivity. Qed.

(** The rows from which the fine graph of a MASH cluster is built. *)
Lemma fine_graph_rows Cdb Ndb c r :
  In r (map n_row
            (filter (fun r =>
                       smem (reference (n_row r))
                            (map genome
                                 (filter (fun x => Nat.eqb (MASH_cluster x) c) Cdb)))
                    Ndb)) <->
  exists nr, In nr Ndb /\ n_row nr = r /\ In (mkCdbRow c (reference r)) Cdb.
Proof.
  rewrite in_map_iff. split.
  - intros (nr & <- & Hnr). apply filter_In in Hnr. destruct Hnr as (Hnr & Hm).
    exists nr. repeat split; auto. now apply members_In, smem_In.
  - intros (nr & Hnr & <- & Hc). exists nr. split; [reflexivity|].
    apply filter_In. split; [assumption|]. now apply smem_In, members_In.
Qed.

(** The nodes of the fine graph of a genome's own MASH cluster, under the
    hypothesis that passing rows stay inside their MASH cluster. *)
Lemma fine_graph_node Cdb Ndb ANIn cov c g :
  NoDup (map genome Cdb) ->
  In (mkCdbRow c g) Cdb ->
  no_cross_cluster_edge Cdb Ndb ANIn cov = true ->
  In g (nodes (fine_graph Cdb Ndb ANIn cov c)) <-> aligned Cdb Ndb ANIn cov g = true.
Proof.
  intros ND Hc Hcross. unfold fine_graph, aligned.
  rewrite make_graph_anin_nodes, existsb_exists. split.
  - intros [Hin | (r & Hr & Hpc & Hpa & Hq)].
    + apply in_map_iff in Hin. destruct Hin as (r & <- & Hr).
      apply fine_graph_rows in Hr. destruct Hr as (nr & Hnr & <- & _).
      exists nr. split; [assumption|]. now rewrite String.eqb_refl.
    + apply fine_graph_rows in Hr. destruct Hr as (nr & Hnr & <- & Hc').
      exists nr. split; [assumption|]. apply orb_true_iff. right.
      unfold passes_anin. rewrite Hpc, Hpa, Hq, String.eqb_refl. simpl.
      apply smem_In. change (reference (n_row nr))
        with (genome (mkCdbRow c (reference (n_row nr)))). now apply in_map.
  - intros (nr & Hnr & H). apply orb_true_iff in H. destruct H as [H | H].
    + apply String.eqb_eq in H. left. rewrite <- H. apply in_map.
      apply fine_graph_rows. exists nr. rewrite H. auto.
    + apply andb_true_iff in H. destruct H as (H & Hm).
      apply andb_true_iff in H. destruct H as (Hp & Hq).
      apply String.eqb_eq in Hq. apply smem_In, in_map_iff in Hm.
      destruct Hm as ([c' g'] & E & Hc'). simpl in E. subst g'.
      assert (c' = c).
      { unfold no_cross_cluster_edge in Hcross. rewrite forallb_forall in Hcross.
        specialize (Hcross nr Hnr). rewrite Hp in Hcross. simpl in Hcross.
        rewrite (mash_cluster_of_In Cdb _ c' ND Hc') in Hcross.
        rewrite Hq, (mash_cluster_of_In Cdb g c ND Hc) in Hcross.
        now apply Nat.eqb_eq in Hcross. }
      subst c'. right. exists (n_row nr).
      unfold passes_anin in Hp. apply andb_true_iff in Hp.
      destruct Hp as (Hpc & Hpa). repeat split; auto.
      apply fine_graph_rows. exists nr. auto.
Qed.

(** The genome is in the fine graph of no other MASH cluster. *)
Lemma fine_graph_not_node Cdb Ndb ANIn cov c c' g :
  NoDup (map genome Cdb) ->
  In (mkCdbRow c g) Cdb ->
  no_cross_cluster_edge Cdb Ndb ANIn cov = true ->
  c' <> c ->
  ~ In g (nodes (fine_graph Cdb Ndb ANIn cov c')).
Proof.
  intros ND Hc Hcross Hne Hin. unfold fine_graph in Hin.
  apply make_graph_anin_nodes in Hin.
  destruct Hin as [Hin | (r & Hr & Hpc & Hpa & Hq)].
  - apply in_map_iff in Hin. destruct Hin as (r & <- & Hr).
    apply fine_graph_rows in Hr. destruct Hr as (_ & _ & _ & Hc').
    apply Hne. now apply (Cdb_cluster_unique Cdb (reference r)).
  - apply fine_graph_rows in Hr. destruct Hr as (nr & Hnr & <- & Hc').
    unfold no_cross_cluster_edge in Hcross. rewrite forallb_forall in Hcross.
    specialize (Hcross nr Hnr). unfold passes_anin in Hcross.
    rewrite Hpc, Hpa in Hcross. simpl in Hcross.
    rewrite (mash_cluster_of_In Cdb _ c' ND Hc') in Hcross.
    rewrite Hq, (mash_cluster_of_In Cdb g c ND Hc) in Hcross.
    apply Nat.eqb_eq in Hcross. contradiction.
Qed.

(** The table [cluster_anin_database] builds has one row for a genome of
    the alignment table, and none for any other genome. *)
Lemma anin_table_row Cdb Ndb ANIn cov c g :
  NoDup (map genome Cdb) ->
  In (mkCdbRow c g) Cdb ->
  no_cross_cluster_edge Cdb Ndb ANIn cov = true ->
  (aligned Cdb Ndb ANIn cov g = true ->
   exists f,
     filter (fun x => String.eqb (fst x) g)
            (flat_map (anin_cluster_rows Cdb Ndb ANIn cov)
                      (nunique (map MASH_cluster Cdb)))
     = [(g, format_cluster c f)]) /\
  (aligned Cdb Ndb ANIn cov g = false ->
   filter (fun x => String.eqb (fst x) g)
          (flat_map (anin_cluster_rows Cdb Ndb ANIn cov)
                    (nunique (map MASH_cluster Cdb)))
   = []).
Proof.
  intros ND Hc Hcross.
  pose proof (fine_graph_node Cdb Ndb ANIn cov c g ND Hc Hcross) as Hiff.
  assert (Hother : forall c', c' <> c ->
             filter (fun x => String.eqb (fst x) g)
                    (anin_cluster_rows Cdb Ndb ANIn cov c') = []).
  { intros c' Hne. rewrite anin_cluster_rows_regroup. apply regroup_none.
    apply cluster_graph_no_row; [apply wf_make_graph_anin|].
    now apply (fine_graph_not_node Cdb Ndb ANIn cov c c' g). }
  split; intro Hal.
  - apply Hiff in Hal.
    destruct (cluster_graph_row _ g (wf_make_graph_anin _ _ _) Hal) as (f & Hf).
    exists f. rewrite filter_flat_map. apply flat_map_single with c.
    + apply nunique_NoDup.
    + apply nunique_In. change c with (MASH_cluster (mkCdbRow c g)). now apply in_map.
    + rewrite anin_cluster_rows_regroup. now apply regroup_one.
    + intros c' _ Hne. now apply Hother.
  - rewrite filter_flat_map. apply flat_map_nil. intros c' _.
    destruct (Nat.eq_dec c' c) as [-> | Hne]; [|now apply Hother].
    rewrite anin_cluster_rows_regroup. apply regroup_none.
    apply cluster_graph_no_row; [apply wf_make_graph_anin|].
    intro Hin. apply Hiff in Hin. congruence.
Qed.

Lemma merge_Gdb_Cdb_filter Gdb Cdb g :
  filter (fun r => String.eqb (f_genome r) g) (merge_Gdb_Cdb Gdb Cdb)
  = merge_Gdb_Cdb (filter (fun x => String.eqb (fst x) g) Gdb) Cdb.
Proof.
  unfold merge_Gdb_Cdb. induction Gdb as [|x Gdb IH]; simpl; [reflexivity|].
  rewrite filter_app, IH, filter_map_swap'. simpl.
  destruct (String.eqb (fst x) g); simpl.
  - f_equal. f_equal. now apply filter_all.
  - rewrite filter_none; [reflexivity | reflexivity].
Qed.

Lemma cluster_anin_database_row Cdb Ndb ANIn cov Final c g :
  cluster_anin_database Cdb (Some Ndb) ANIn cov = Ok Final ->
  NoDup (map genome Cdb) ->
  In (mkCdbRow c g) Cdb ->
  no_cross_cluster_edge Cdb Ndb ANIn cov = true ->
  (aligned Cdb Ndb ANIn cov g = true ->
   exists f,
     filter (fun r => String.eqb (f_genome r) g) Final
     = [mkFinalRow g (format_cluster c f) c]) /\
  (aligned Cdb Ndb ANIn cov g = false ->
   filter (fun r => String.eqb (f_genome r) g) Final = []).
Proof.
  intros Hrun ND Hc Hcross.
  destruct (anin_table_row Cdb Ndb ANIn cov c g ND Hc Hcross) as (Hone & Hnone).
  unfold cluster_anin_database in Hrun.
  assert (Hne : In c (nunique (map MASH_cluster Cdb))).
  { apply nunique_In. change c with (MASH_cluster (mkCdbRow c g)). now apply in_map. }
  remember (nunique (map MASH_cluster Cdb)) as clusters eqn:Ecl.
  destruct clusters as [|c0 clusters']; [contradiction|].
  simpl in Hrun. inversion Hrun as [HF]. clear Hrun HF.
  change (anin_cluster_rows Cdb Ndb ANIn cov c0
          ++ flat_map (anin_cluster_rows Cdb Ndb ANIn cov) clusters')
    with (flat_map (anin_cluster_rows Cdb Ndb ANIn cov) (c0 :: clusters')).
  split; intro Hal.
  - destruct (Hone Hal) as (f & Hf). exists f.
    rewrite merge_Gdb_Cdb_filter, Hf. unfold merge_Gdb_Cdb. simpl.
    rewrite app_nil_r.
    pose proof (filter_key_unique String.eqb String.eqb_eq genome Cdb
                                  (mkCdbRow c g) ND Hc) as Hk.
    simpl in Hk. rewrite Hk. reflexivity.
  - rewrite merge_Gdb_Cdb_filter, (Hnone Hal). reflexivity.
Qed.

(** ** The driver *)

Lemma cluster_database_genome_NoDup db t : NoDup (map genome (cluster_database db t)).
Proof.
  unfold cluster_database. rewrite map_map. simpl.
  apply cluster_graph_genome_NoDup, wf_make_graph.
Qed.

(** C1 (as the code has it): with neither stage skipped, and provided no
    alignment row that passes the thresholds of the fine graph (0.99 and
    0.5) pairs genomes of two different MASH clusters, a genome of the MASH
    assignment that is in the alignment table (the reference of a row of
    Ndb, or the query of a passing row whose reference is in the MASH
    assignment) has exactly one row in the returned table, labelled
    ["{coarse_id}_{fine_id}"] with its own MASH cluster number; a genome of
    the MASH assignment that is not in the alignment table has no row in
    the returned table. *)
Theorem aligned_genome_labelled_once
  gen W Bdb data_folder MASH_ANI ANIn dry Cdb Mdb Ndb c g :
  cluster_genomes gen W Bdb data_folder MASH_ANI ANIn dry false false
  = Ok (inr Cdb, Mdb, Some Ndb) ->
  In (mkCdbRow c g) (cluster_database Mdb MASH_ANI) ->
  no_cross_cluster_edge (cluster_database Mdb MASH_ANI) Ndb 0.99 0.5 = true ->
  (aligned (cluster_database Mdb MASH_ANI) Ndb 0.99 0.5 g = true ->
   exists f,
     filter (fun r => String.eqb (f_genome r) g) Cdb
     = [mkFinalRow g (format_cluster c f) c]) /\
  (aligned (cluster_database Mdb MASH_ANI) Ndb 0.99 0.5 g = false ->
   filter (fun r => String.eqb (f_genome r) g) Cdb = []).
Proof.
  intros Hrun Hc Hcross.
  unfold cluster_genomes in Hrun. cbn [negb bind] in Hrun.
  set (Mdb0 := all_vs_all_MASH W Bdb data_folder dry) in *.
  set (Cdb0 := cluster_database Mdb0 MASH_ANI) in *.
  destruct (run_anin_on_clusters W Bdb Cdb0 data_folder dry) as [Ndb0 | e];
    [|discriminate].
  cbn [bind] in Hrun.
  destruct (cluster_anin_database Cdb0 Ndb0 0.99 0.5) as [Final | e] eqn:Efine;
    [|discriminate].
  cbn [bind read_local] in Hrun.
  inversion Hrun; subst Final Mdb Ndb0. clear Hrun.
  fold Cdb0 in Hc, Hcross |- *.
  apply (cluster_anin_database_row Cdb0 Ndb 0.99 0.5 Cdb c g Efine); auto.
  apply cluster_database_genome_NoDup.
Qed.

Lemma aligned_genome_labelled_once_witness :
  (exists f,
     filter (fun r => String.eqb (f_genome r) "B") complete_run_Cdb
     = [mkFinalRow "B" (format_cluster 0 f) 0]) /\
  filter (fun r => String.eqb (f_genome r) "B") partial_run_Cdb = [].
Proof.
  split.
  - refine (proj1 (aligned_genome_labelled_once
                     gen_nomash_cdb_spec (complete_world "5") three_genomes "data/"
                     0.9 0.99 false complete_run_Cdb complete_run_Mdb
                     complete_run_Ndb 0 "B" _ _ _) _).
    + vm_compute. reflexivity.
    + vm_compute. auto.
    + vm_compute. reflexivity.
    + vm_compute. reflexivity.
  - refine (proj2 (aligned_genome_labelled_once
                     gen_nomash_cdb_spec partial_world three_genomes "data/"
                     0.9 0.99 false partial_run_Cdb partial_run_Mdb
                     partial_run_Ndb 0 "B" _ _ _) _).
    + vm_compute. reflexivity.
    + vm_compute. auto.
    + vm_compute. reflexivity.
    + vm_compute. reflexivity.
Defined.

(** C1, counterexample: the alignment files with reference B are missing
    (the jobs failed) and B does not pass the thresholds against A. B is
    in the input and in the MASH assignment, and the returned table has no
    row for it. *)
Lemma genome_dropped_by_fine_pass :
  map b_genome three_genomes = ["A"; "B"; "C"] /\
  mash_cluster_of
    (cluster_database (all_vs_all_MASH partial_world three_genomes "data/" false) 0.9)
    "B" = Some 0 /\
  labels (cluster_genomes gen_nomash_cdb_spec partial_world three_genomes "data/"
                          0.9 0.99 false false false)
  = Some [("A", "0_0"); ("C", "1_0")].
Proof. repeat split; vm_compute; reflexivity. Qed.

(** A genome that is the reference of no row is kept when it is the query
    of a passing row: [add_edge] makes it a node of the fine graph. *)
Lemma query_of_passing_row_kept :
  labels (cluster_genomes gen_nomash_cdb_spec query_only_world three_genomes "data/"
                          0.9 0.99 false false false)
  = Some [("A", "0_0"); ("B", "0_0"); ("C", "1_0")].
Proof. vm_compute. reflexivity. Qed.

(** C3: with [skipMash] the call never returns: whatever [gen_nomash_cdb]
    does, [Mdb] is unbound at [return Cdb,Mdb,Ndb]. With the
    [gen_nomash_cdb] of the specification the fine pass runs and the
    return statement raises. *)
Theorem skipMash_raises :
  (forall gen W Bdb data_folder MASH_ANI ANIn dry skipANIn,
     exists e,
       cluster_genomes gen W Bdb data_folder MASH_ANI ANIn dry true skipANIn
       = Raise e) /\
  cluster_genomes gen_nomash_cdb_spec (complete_world "5") three_genomes "data/"
                  0.9 0.99 false true false
  = Raise (UnboundLocalError "Mdb").
Proof.
  split; [|vm_compute; reflexivity].
  intros gen W Bdb data_folder MASH_ANI ANIn dry skipANIn.
  unfold cluster_genomes. cbn [negb].
  destruct (gen Bdb) as [Cdb | e]; cbn [bind]; [|eauto].
  destruct skipANIn; cbn [negb bind read_local]; [eauto|].
  destruct (run_anin_on_clusters W Bdb Cdb data_folder dry) as [Ndb | e];
    cbn [bind]; [|eauto].
  destruct (cluster_anin_database Cdb Ndb 0.99 0.5) as [Final | e];
    cbn [bind read_local]; eauto.
Qed.

(** The threshold [ANIn] does not reach the fine graph. *)
Lemma cluster_genomes_ignores_ANIn gen W Bdb data_folder MASH_ANI ANIn ANIn'
  dry skipMash skipANIn :
  cluster_genomes gen W Bdb data_folder MASH_ANI ANIn dry skipMash skipANIn
  = cluster_genomes gen W Bdb data_folder MASH_ANI ANIn' dry skipMash skipANIn.
Proof. reflexivity. Qed.

(** C4, at the failing input: the caller passes [ANIn = 0.95]; A and B
    align with identity 0.97 and reference coverage 10/11. The fine graph
    built with the caller's threshold joins A and B; [cluster_genomes]
    uses 0.99 and separates them. *)
Theorem caller_ANIn_not_used :
  let rows := [mkDeltaRow "A" "A" 1000 0 (10 # 11) (10 # 11) 1;
               mkDeltaRow "A" "B" 1000 30 (10 # 11) (10 # 11) 0.97;
               mkDeltaRow "B" "A" 1000 30 (10 # 11) (10 # 11) 0.97;
               mkDeltaRow "B" "B" 1000 0 (10 # 11) (10 # 11) 1] in
  process_deltadir (glob_delta (complete_world "30") "data/ANIn_files/0/")
                   [("A", 1100%Z); ("B", 1100%Z); ("C", 1100%Z)]
  = Ok rows /\
  edges (make_graph_anin rows 0.5 0.95)
  = [("A", "A"); ("B", "A"); ("A", "B"); ("B", "B")] /\
  map cr_cluster (cluster_graph (make_graph_anin rows 0.5 0.95)) = [0; 0] /\
  edges (make_graph_anin rows 0.5 0.99) = [("A", "A"); ("B", "B")] /\
  labels (cluster_genomes gen_nomash_cdb_spec (complete_world "30") three_genomes
                          "data/" 0.9 0.95 false false false)
  = Some [("A", "0_0"); ("B", "0_1"); ("C", "1_0")].
Proof. repeat split; vm_compute; reflexivity. Qed.

(** With [skipANIn] the call does not return either: [Ndb] is unbound at
    [return Cdb,Mdb,Ndb]. *)
Lemma skipANIn_raises gen W Bdb data_folder MASH_ANI ANIn dry :
  cluster_genomes gen W Bdb data_folder MASH_ANI ANIn dry false true
  = Raise (UnboundLocalError "Ndb").
Proof. reflexivity. Qed.

(** ** Strings and genome names *)

Lemma string_app_nil_r (s : string) : (s ++ "")%string = s.
Proof. induction s as [|c s IH]; simpl; [reflexivity | now rewrite IH]. Qed.

Lemma string_app_assoc (a b c : string) :
  ((a ++ b) ++ c)%string = (a ++ (b ++ c))%string.
Proof. induction a as [|x a IH]; simpl; [reflexivity | now rewrite IH]. Qed.

Lemma snoc_app cur c s : (snoc cur c ++ s)%string = (cur ++ String c s)%string.
Proof. unfold snoc. now rewrite string_app_assoc. Qed.

Lemma has_char_app c a b :
  has_char c (a ++ b) = has_char c a || has_char c b.
Proof.
  induction a as [|x a IH]; simpl; [reflexivity|].
  now rewrite IH, orb_assoc.
Qed.

Lemma has_char_snoc c cur x :
  has_char c (snoc cur x) = has_char c cur || Ascii.eqb x c.
Proof. unfold snoc. rewrite has_char_app. simpl. now rewrite orb_false_r. Qed.

Lemma basename_aux_no_slash s cur :
  has_char "/" s = false -> basename_aux s cur = (cur ++ s)%string.
Proof.
  revert cur. induction s as [|c s IH]; intros cur H; simpl.
  - now rewrite string_app_nil_r.
  - simpl in H. apply orb_false_iff in H. destruct H as (Hc & Hs).
    rewrite Hc, IH by assumption. apply snoc_app.
Qed.

Lemma basename_aux_slash a b cur :
  basename_aux (a ++ String "/" b) cur = basename_aux b "".
Proof.
  revert cur. induction a as [|c a IH]; intro cur; simpl; [reflexivity|].
  destruct (Ascii.eqb c "/"); apply IH.
Qed.

Lemma basename_aux_has_no_slash s cur :
  has_char "/" cur = false -> has_char "/" (basename_aux s cur) = false.
Proof.
  revert cur. induction s as [|c s IH]; intros cur H; simpl; [assumption|].
  destruct (Ascii.eqb c "/") eqn:E; apply IH; [reflexivity|].
  now rewrite has_char_snoc, H, E.
Qed.

(** [os.path.basename] drops the directories and leaves a name without a
    slash untouched. *)
Lemma basename_dir dir name :
  has_char "/" name = false -> basename (dir ++ "/" ++ name) = name.
Proof.
  intro H. unfold basename. simpl. rewrite basename_aux_slash.
  now apply basename_aux_no_slash.
Qed.

Lemma prefix_dot c s : String.prefix "." (String c s) = Ascii.eqb c ".".
Proof.
  cbn [String.prefix]. destruct (ascii_dec "." c) as [<- | Hne].
  - rewrite Ascii.eqb_refl. now destruct s.
  - symmetry. apply Ascii.eqb_neq. congruence.
Qed.

Lemma split_dot_none s cur :
  has_char "." s = false -> split_sep_aux "." 0 s cur = [(cur ++ s)%string].
Proof.
  revert cur. induction s as [|c s IH]; intros cur H.
  - simpl. now rewrite string_app_nil_r.
  - simpl in H. apply orb_false_iff in H. destruct H as (Hc & Hs).
    cbn [split_sep_aux]. rewrite prefix_dot, Hc, IH by assumption.
    now rewrite snoc_app.
Qed.

Lemma split_dot_cons n rest cur :
  has_char "." n = false ->
  split_sep_aux "." 0 (n ++ String "." rest) cur
  = (cur ++ n)%string :: split_sep_aux "." 0 rest "".
Proof.
  revert cur. induction n as [|c n IH]; intros cur H.
  - cbn [append split_sep_aux]. rewrite prefix_dot. simpl.
    now rewrite string_app_nil_r.
  - simpl in H. apply orb_false_iff in H. destruct H as (Hc & Hs).
    cbn [append split_sep_aux]. rewrite prefix_dot, Hc, IH by assumption.
    now rewrite snoc_app.
Qed.

Lemma split_dot_hd_has_char c s cur :
  has_char c cur = false ->
  (c = "."%char \/ has_char c s = false) ->
  has_char c (hd "" (split_sep_aux "." 0 s cur)) = false.
Proof.
  revert cur. induction s as [|x s IH]; intros cur Hcur Hs; [exact Hcur|].
  cbn [split_sep_aux]. rewrite prefix_dot.
  destruct (Ascii.eqb x ".") eqn:Ex; [exact Hcur|].
  apply IH.
  - rewrite has_char_snoc, Hcur. simpl.
    destruct Hs as [-> | Hs]; [exact Ex|].
    simpl in Hs. now apply orb_false_iff in Hs.
  - destruct Hs as [-> | Hs]; [now left | right].
    simpl in Hs. now apply orb_false_iff in Hs.
Qed.

Lemma genome_name_chars fasta :
  has_char "." (get_genome_name_from_fasta fasta) = false /\
  has_char "/" (get_genome_name_from_fasta fasta) = false.
Proof.
  unfold get_genome_name_from_fasta, split_sep. split.
  - apply split_dot_hd_has_char; [reflexivity | now left].
  - apply split_dot_hd_has_char; [reflexivity | right].
    now apply basename_aux_has_no_slash.
Qed.

(** A genome name has neither a dot nor a slash, whatever the path. *)
Lemma get_genome_name_from_fasta_chars fasta :
  has_char "." (get_genome_name_from_fasta fasta) = false /\
  has_char "/" (get_genome_name_from_fasta fasta) = false.
Proof. apply genome_name_chars. Qed.

(** The genome name of a file is its name up to the first dot: the
    directories and every extension are dropped. *)
Lemma get_genome_name_from_fasta_path dir name ext :
  has_char "/" name = false -> has_char "." name = false ->
  has_char "/" ext = false ->
  get_genome_name_from_fasta (dir ++ "/" ++ name ++ "." ++ ext) = name.
Proof.
  intros Hs Hd He. unfold get_genome_name_from_fasta.
  rewrite basename_dir.
  - unfold split_sep. change (name ++ "." ++ ext)%string
      with (name ++ String "." ext)%string.
    now rewrite split_dot_cons.
  - rewrite has_char_app, Hs. simpl. exact He.
Qed.

Lemma get_genome_name_from_fasta_path_witness :
  get_genome_name_from_fasta ("/data/genomes" ++ "/" ++ "Escherichia_coli_Sakai"
                                              ++ "." ++ "v2.fna")
  = "Escherichia_coli_Sakai".
Proof.
  apply (get_genome_name_from_fasta_path "/data/genomes" "Escherichia_coli_Sakai"
                                         "v2.fna"); reflexivity.
Defined.

(** ** Output file names of the NUCmer jobs *)

Lemma prefix_nil s : String.prefix "" s = true.
Proof. now destruct s. Qed.

Lemma string_length_app a b :
  String.length (a ++ b) = String.length a + String.length b.
Proof. induction a as [|x a IH]; simpl; [reflexivity | now rewrite IH]. Qed.

Lemma prefix_app_self sep rest : String.prefix sep (sep ++ rest) = true.
Proof.
  induction sep as [|x sep IH]; [apply prefix_nil|].
  cbn [append String.prefix]. destruct (ascii_dec x x); [exact IH | congruence].
Qed.

Lemma prefix_app_mono sep a b :
  String.prefix sep a = true -> String.prefix sep (a ++ b) = true.
Proof.
  revert a. induction sep as [|x sep IH]; intros a H; [apply prefix_nil|].
  destruct a as [|y a]; [discriminate|].
  cbn [append String.prefix] in *. destruct (ascii_dec x y); [now apply IH | discriminate].
Qed.

Lemma prefix_app_long sep a b :
  String.length sep <= String.length a ->
  String.prefix sep (a ++ b) = String.prefix sep a.
Proof.
  revert a. induction sep as [|x sep IH]; intros a H.
  - now rewrite !prefix_nil.
  - destruct a as [|y a]; [simpl in H; lia|].
    cbn [append String.prefix]. destruct (ascii_dec x y); [|reflexivity].
    apply IH. simpl in H. lia.
Qed.

Lemma occurs_app_l sep a b : occurs sep (a ++ b) = false -> occurs sep a = false.
Proof.
  induction a as [|x a IH]; intro H.
  - cbn [occurs]. rewrite orb_false_r.
    destruct (String.prefix sep "") eqn:E; [|reflexivity].
    apply (prefix_app_mono sep "" b) in E. cbn [append] in E, H.
    destruct b; cbn [occurs] in H; rewrite E in H; discriminate.
  - cbn [append occurs] in *. apply orb_false_iff in H. destruct H as (Hp & Ho).
    rewrite (IH Ho), orb_false_r.
    destruct (String.prefix sep (String x a)) eqn:E; [|reflexivity].
    apply (prefix_app_mono sep _ b) in E. cbn [append] in E. congruence.
Qed.

Lemma split_sep_aux_skip sep a rest cur :
  split_sep_aux sep (String.length a) (a ++ rest) cur = split_sep_aux sep 0 rest cur.
Proof.
  induction a as [|x a IH]; [reflexivity|]. simpl. destruct rest; apply IH.
Qed.

Lemma split_sep_none sep s cur :
  occurs sep s = false -> split_sep_aux sep 0 s cur = [(cur ++ s)%string].
Proof.
  revert cur. induction s as [|c s IH]; intros cur H.
  - simpl. now rewrite string_app_nil_r.
  - cbn [occurs] in H. apply orb_false_iff in H. destruct H as (Hp & Ho).
    cbn [split_sep_aux]. rewrite Hp, IH by assumption. now rewrite snoc_app.
Qed.

Lemma split_sep_aux_0 sep c s cur :
  split_sep_aux sep 0 (String c s) cur
  = if String.prefix sep (String c s)
    then cur :: split_sep_aux sep (String.length sep - 1) s ""
    else split_sep_aux sep 0 s (snoc cur c).
Proof. reflexivity. Qed.

Lemma split_vs_left n1 rest cur :
  occurs "_vs_" (n1 ++ "_vs") = false ->
  split_sep_aux "_vs_" 0 (n1 ++ "_vs_" ++ rest) cur
  = (cur ++ n1)%string :: split_sep_aux "_vs_" 0 rest "".
Proof.
  revert cur. induction n1 as [|c n1 IH]; intros cur H.
  - change ("" ++ "_vs_" ++ rest)%string with (String "_" ("vs_" ++ rest)).
    rewrite split_sep_aux_0.
    change (String "_" ("vs_" ++ rest)) with ("_vs_" ++ rest)%string.
    rewrite prefix_app_self, string_app_nil_r. reflexivity.
  - change (String c n1 ++ "_vs")%string with (String c (n1 ++ "_vs")) in H.
    cbn [occurs] in H. apply orb_false_iff in H. destruct H as (Hp & Ho).
    change (String c n1 ++ "_vs_" ++ rest)%string
      with (String c (n1 ++ "_vs_" ++ rest)).
    rewrite split_sep_aux_0.
    assert (Hp' : String.prefix "_vs_" (String c (n1 ++ "_vs_" ++ rest)) = false).
    { assert (Eq : String c (n1 ++ "_vs_" ++ rest)
                   = (String c (n1 ++ "_vs") ++ String "_" rest)%string).
      { change (String c (n1 ++ "_vs") ++ String "_" rest)%string
          with (String c ((n1 ++ "_vs") ++ String "_" rest)).
        now rewrite string_app_assoc. }
      rewrite Eq, prefix_app_long; [exact Hp|].
      simpl. rewrite string_length_app. simpl. lia. }
    rewrite Hp', IH by assumption. now rewrite snoc_app.
Qed.

(** The name of an output file splits back into the two genome names. *)
Lemma split_vs_names n1 n2 :
  vs_free n1 = true -> vs_free n2 = true ->
  split_sep "_vs_" (n1 ++ "_vs_" ++ n2) = [n1; n2].
Proof.
  unfold vs_free. rewrite !negb_true_iff. intros H1 H2.
  unfold split_sep. rewrite split_vs_left by assumption. simpl.
  now rewrite split_sep_none by (eapply occurs_app_l; eassumption).
Qed.

Lemma last_dot_none e : has_char "." e = false -> last_dot e = None.
Proof.
  induction e as [|c e IH]; [reflexivity|]. simpl. intro H.
  apply orb_false_iff in H. destruct H as (Hc & He). now rewrite IH, Hc.
Qed.

Lemma last_dot_app n e :
  has_char "." e = false -> last_dot (n ++ String "." e) = Some (n, String "." e).
Proof.
  intro He. induction n as [|c n IH].
  - cbn [append last_dot]. now rewrite (last_dot_none e He).
  - cbn [append last_dot]. now rewrite IH.
Qed.

Lemma all_dots_app a b : all_dots (a ++ b) = all_dots a && all_dots b.
Proof.
  induction a as [|x a IH]; simpl; [reflexivity|]. now rewrite IH, andb_assoc.
Qed.

Lemma splitext_root_ext n e :
  all_dots n = false -> has_char "." e = false ->
  splitext_root (n ++ String "." e) = n.
Proof.
  intros Hn He. unfold splitext_root. now rewrite last_dot_app, Hn.
Qed.

Lemma delta_names_of_file_name dir n1 n2 :
  has_char "/" n1 = false -> has_char "/" n2 = false ->
  vs_free n1 = true -> vs_free n2 = true ->
  delta_names (dir ++ "/" ++ n1 ++ "_vs_" ++ n2 ++ ".delta") = Ok (n1, n2).
Proof.
  intros Hs1 Hs2 Hv1 Hv2. unfold delta_names.
  rewrite basename_dir.
  - replace (n1 ++ "_vs_" ++ n2 ++ ".delta")%string
      with ((n1 ++ "_vs_" ++ n2) ++ String "." "delta")%string
      by (now rewrite !string_app_assoc).
    rewrite splitext_root_ext; [|now rewrite all_dots_app, andb_false_r | reflexivity].
    now rewrite split_vs_names.
  - rewrite !has_char_app, Hs1, Hs2. reflexivity.
Qed.

(** Round trip of the file name convention: the file NUCmer writes for
    the prefix [dir/n1_vs_n2] is read back by [process_deltadir] as the
    pair [(n1, n2)]. *)
Lemma delta_names_round_trip dir n1 n2 :
  has_char "/" n1 = false -> has_char "/" n2 = false ->
  vs_free n1 = true -> vs_free n2 = true ->
  delta_names (dir ++ "/" ++ n1 ++ "_vs_" ++ n2 ++ ".delta") = Ok (n1, n2).
Proof. apply delta_names_of_file_name. Qed.

Lemma delta_names_round_trip_witness :
  delta_names ("data/ANIn_files/0" ++ "/" ++ "Enterococcus_faecalis_T2" ++ "_vs_"
                                   ++ "Escherichia_coli_Sakai" ++ ".delta")
  = Ok ("Enterococcus_faecalis_T2", "Escherichia_coli_Sakai").
Proof.
  apply (delta_names_round_trip "data/ANIn_files/0" "Enterococcus_faecalis_T2"
                                "Escherichia_coli_Sakai"); reflexivity.
Defined.

(** ** The NUCmer commands *)

Lemma gen_nucmer_commands_In genomes outf c maxgap noextend method cmd :
  In cmd (gen_nucmer_commands genomes outf c maxgap noextend method) <->
  exists g1 g2,
    In g1 genomes /\ In g2 genomes /\
    cmd = gen_nucmer_cmd
            (outf ++ get_genome_name_from_fasta g1 ++ "_vs_"
                  ++ get_genome_name_from_fasta g2)
            g1 g2 c noextend maxgap method.
Proof.
  unfold gen_nucmer_commands. rewrite in_flat_map. split.
  - intros (g1 & H1 & H). apply in_map_iff in H. destruct H as (g2 & <- & H2).
    now exists g1, g2.
  - intros (g1 & g2 & H1 & H2 & ->). exists g1. split; [assumption|].
    apply in_map_iff. now exists g2.
Qed.

Lemma length_pairs {A B : Type} (f : A -> A -> B) (l1 l2 : list A) :
  List.length (flat_map (fun a => map (f a) l2) l1)
  = List.length l1 * List.length l2.
Proof.
  induction l1 as [|a l1 IH]; simpl; [reflexivity|].
  now rewrite length_app, length_map, IH.
Qed.

(** [gen_nucmer_commands] generates one command per ordered pair, self
    pairs included: [n * n] commands for [n] genomes. *)
Lemma gen_nucmer_commands_length genomes outf c maxgap noextend method :
  List.length (gen_nucmer_commands genomes outf c maxgap noextend method)
  = List.length genomes * List.length genomes.
Proof. unfold gen_nucmer_commands. apply length_pairs. Qed.

Lemma out_prefix_assoc dir n1 n2 :
  (((dir ++ "/") ++ n1 ++ "_vs_" ++ n2) ++ ".delta")%string
  = (dir ++ "/" ++ n1 ++ "_vs_" ++ n2 ++ ".delta")%string.
Proof. now rewrite !string_app_assoc. Qed.

Lemma name_vs_free genomes g :
  forallb (fun g => vs_free (get_genome_name_from_fasta g)) genomes = true ->
  In g genomes -> vs_free (get_genome_name_from_fasta g) = true.
Proof. intros H Hg. rewrite forallb_forall in H. now apply H. Qed.

Lemma out_prefix_parse dir genomes g1 g2 :
  forallb (fun g => vs_free (get_genome_name_from_fasta g)) genomes = true ->
  In g1 genomes -> In g2 genomes ->
  delta_names (((dir ++ "/") ++ get_genome_name_from_fasta g1 ++ "_vs_"
                            ++ get_genome_name_from_fasta g2) ++ ".delta")
  = Ok (get_genome_name_from_fasta g1, get_genome_name_from_fasta g2).
Proof.
  intros Hfree H1 H2. rewrite out_prefix_assoc. apply delta_names_of_file_name.
  - apply genome_name_chars.
  - apply genome_name_chars.
  - now apply (name_vs_free genomes).
  - now apply (name_vs_free genomes).
Qed.

(** The output file of every generated job is read back by
    [process_deltadir] as the pair of genome names the job compares:
    NUCmer writes [prefix.delta] for the prefix passed with [-p]. The
    separator must not be found in any genome name followed by ["_vs"]:
    neither inside the name nor overlapping the separator after it. *)
Lemma nucmer_outputs_parse_back genomes dir c maxgap noextend method cmd :
  forallb (fun g => vs_free (get_genome_name_from_fasta g)) genomes = true ->
  In cmd (gen_nucmer_commands genomes (dir ++ "/") c maxgap noextend method) ->
  exists g1 g2 out,
    In g1 genomes /\ In g2 genomes /\
    cmd = gen_nucmer_cmd out g1 g2 c noextend maxgap method /\
    delta_names (out ++ ".delta")
    = Ok (get_genome_name_from_fasta g1, get_genome_name_from_fasta g2).
Proof.
  intros Hfree Hin. apply gen_nucmer_commands_In in Hin.
  destruct Hin as (g1 & g2 & H1 & H2 & ->).
  exists g1, g2. eexists. repeat split; [assumption | assumption |].
  now apply (out_prefix_parse dir genomes).
Qed.

Lemma nucmer_outputs_parse_back_witness :
  exists g1 g2 out,
    In g1 ["/g/Enterococcus_faecalis_T2.fna"; "/g/Escherichia_coli_Sakai.fna"] /\
    In g2 ["/g/Enterococcus_faecalis_T2.fna"; "/g/Escherichia_coli_Sakai.fna"] /\
    gen_nucmer_cmd "out/0/Enterococcus_faecalis_T2_vs_Escherichia_coli_Sakai"
                   "/g/Enterococcus_faecalis_T2.fna"
                   "/g/Escherichia_coli_Sakai.fna" 65 true 1 "mum"
    = gen_nucmer_cmd out g1 g2 65 true 1 "mum" /\
    delta_names (out ++ ".delta")
    = Ok (get_genome_name_from_fasta g1, get_genome_name_from_fasta g2).
Proof.
  apply (nucmer_outputs_parse_back
           ["/g/Enterococcus_faecalis_T2.fna"; "/g/Escherichia_coli_Sakai.fna"]
           "out/0" 65 1 true "mum").
  - reflexivity.
  - simpl. auto.
Defined.

Lemma NoDup_map_by_key {A B K : Type} (key : A -> K) (g : A -> B) (l : list A) :
  NoDup (map key l) ->
  (forall x y, In x l -> In y l -> g x = g y -> key x = key y) ->
  NoDup (map g l).
Proof.
  induction l as [|a l IH]; simpl; intros ND Hinj; [constructor|].
  inversion ND as [|? ? Ha ND']; subst. constructor.
  - intro H. apply in_map_iff in H. destruct H as (y & Hy & Hin).
    apply Ha. rewrite (Hinj a y); auto. now apply in_map.
  - apply IH; auto.
Qed.

Lemma NoDup_pairs_by_key {A B K : Type} (key : A -> K) (f : A -> A -> B)
  (l1 l2 : list A) :
  NoDup (map key l1) -> NoDup (map key l2) ->
  (forall a b a' b', In a l1 -> In b l2 -> In a' l1 -> In b' l2 ->
                     f a b = f a' b' -> key a = key a' /\ key b = key b') ->
  NoDup (flat_map (fun a => map (f a) l2) l1).
Proof.
  intros ND1 ND2. induction l1 as [|a l1 IH]; simpl; intro Hinj; [constructor|].
  inversion ND1 as [|? ? Ha ND1']; subst. apply NoDup_app_intro.
  - apply (NoDup_map_by_key key); [assumption|].
    intros x y Hx Hy E. now destruct (Hinj a x a y); auto.
  - apply IH; [assumption|]. intros; apply Hinj; auto.
  - intros x Hx Hx'. apply in_map_iff in Hx. destruct Hx as (b & <- & Hb).
    apply in_flat_map in Hx'. destruct Hx' as (a' & Ha' & Hx').
    apply in_map_iff in Hx'. destruct Hx' as (b' & E & Hb').
    destruct (Hinj a' b' a b) as (Ek & _); auto.
    apply Ha. rewrite <- Ek. now apply in_map.
Qed.

Lemma gen_nucmer_cmd_prefix out g1 g2 c noextend maxgap method :
  nth 3 (gen_nucmer_cmd out g1 g2 c noextend maxgap method) "" = out.
Proof. now destruct noextend. Qed.

Lemma map_pairs {A B C : Type} (h : B -> C) (f : A -> A -> B) (l1 l2 : list A) :
  map h (flat_map (fun a => map (f a) l2) l1)
  = flat_map (fun a => map (fun b => h (f a b)) l2) l1.
Proof.
  induction l1 as [|a l1 IH]; simpl; [reflexivity|].
  now rewrite map_app, map_map, IH.
Qed.

(** When the genomes have distinct names and the separator is found in no
    name followed by ["_vs"] (neither inside the name nor overlapping the
    separator after it), no two jobs are given the same output prefix. *)
Lemma nucmer_output_prefixes_distinct genomes dir c maxgap noextend method :
  forallb (fun g => vs_free (get_genome_name_from_fasta g)) genomes = true ->
  NoDup (map get_genome_name_from_fasta genomes) ->
  NoDup (map (fun cmd => nth 3 cmd "")
             (gen_nucmer_commands genomes (dir ++ "/") c maxgap noextend method)).
Proof.
  intros Hfree ND. unfold gen_nucmer_commands. rewrite map_pairs.
  apply (NoDup_pairs_by_key get_genome_name_from_fasta); [assumption | assumption|].
  intros a b a' b' Ha Hb Ha' Hb' E. rewrite !gen_nucmer_cmd_prefix in E.
  pose proof (out_prefix_parse dir genomes a b Hfree Ha Hb) as P.
  pose proof (out_prefix_parse dir genomes a' b' Hfree Ha' Hb') as P'.
  rewrite E in P. rewrite P in P'. now inversion P'.
Qed.

Lemma nucmer_output_prefixes_distinct_witness :
  NoDup (map (fun cmd => nth 3 cmd "")
             (gen_nucmer_commands
                ["/g/Enterococcus_faecalis_T2.fna"; "/g/Escherichia_coli_Sakai.fna"]
                ("out/0" ++ "/") 65 1 true "mum")).
Proof.
  apply (nucmer_output_prefixes_distinct
           ["/g/Enterococcus_faecalis_T2.fna"; "/g/Escherichia_coli_Sakai.fna"]
           "out/0" 65 1 true "mum").
  - reflexivity.
  - vm_compute. repeat constructor; simpl; intuition discriminate.
Defined.

(** The condition on the names is needed: neither [x_vs] nor [B] holds the
    separator, and the jobs of the pairs [(x_vs, B)] and [(x, vs_B)] are
    given the same prefix, whose file is read back as [(x, vs_B)]. *)
Lemma overlapping_separator_confused :
  occurs "_vs_" "x_vs" = false /\ occurs "_vs_" "B" = false /\
  vs_free "x_vs" = false /\
  nth 3 (gen_nucmer_cmd ("out/" ++ "x_vs" ++ "_vs_" ++ "B") "/g/x_vs.fna" "/g/B.fna"
                        65 true 1 "mum") ""
  = nth 3 (gen_nucmer_cmd ("out/" ++ "x" ++ "_vs_" ++ "vs_B") "/g/x.fna" "/g/vs_B.fna"
                          65 true 1 "mum") "" /\
  delta_names "out/x_vs_vs_B.delta" = Ok ("x", "vs_B").
Proof. repeat split. Qed.

Lemma merge_Bdb_Cdb_In Bdb Cdb b cluster :
  In (b, cluster) (merge_Bdb_Cdb Bdb Cdb) <->
  In b Bdb /\ In (mkCdbRow cluster (b_genome b)) Cdb.
Proof.
  unfold merge_Bdb_Cdb. rewrite in_flat_map. split.
  - intros (b' & Hb & H). apply in_map_iff in H. destruct H as ([c g] & E & H).
    inversion E; subst. apply filter_In in H. simpl in H. destruct H as (H & Eg).
    apply String.eqb_eq in Eg. subst g. auto.
  - intros (Hb & Hc). exists b. split; [assumption|].
    apply in_map_iff. exists (mkCdbRow cluster (b_genome b)). split; [reflexivity|].
    apply filter_In. split; [assumption|]. simpl. apply String.eqb_refl.
Qed.

(** The fine alignment jobs never pair genomes of two MASH clusters: the
    two genomes of every command [run_anin_on_clusters] generates are
    input genomes that the MASH table puts in one cluster. *)
Lemma run_anin_commands_same_cluster Bdb Cdb data_folder cmd :
  In cmd (run_anin_commands Bdb Cdb data_folder) ->
  exists cluster b1 b2 out,
    In b1 Bdb /\ In b2 Bdb /\
    In (mkCdbRow cluster (b_genome b1)) Cdb /\
    In (mkCdbRow cluster (b_genome b2)) Cdb /\
    cmd = gen_nucmer_cmd out (location b1) (location b2) 65 true 1 "mum".
Proof.
  unfold run_anin_commands. intro H. apply in_flat_map in H.
  destruct H as (cluster & _ & H). apply gen_nucmer_commands_In in H.
  destruct H as (g1 & g2 & H1 & H2 & ->).
  apply in_map_iff in H1, H2.
  destruct H1 as ([b1 c1] & <- & H1), H2 as ([b2 c2] & <- & H2).
  apply filter_In in H1, H2. simpl in H1, H2.
  destruct H1 as (H1 & E1), H2 as (H2 & E2).
  apply Nat.eqb_eq in E1, E2. subst c1 c2.
  apply merge_Bdb_Cdb_In in H1, H2.
  exists cluster, b1, b2. eexists. simpl. intuition eauto.
Qed.

Lemma run_anin_commands_same_cluster_witness :
  exists cluster b1 b2 out,
    In b1 three_genomes /\ In b2 three_genomes /\
    In (mkCdbRow cluster (b_genome b1))
       [mkCdbRow 0 "A"; mkCdbRow 0 "B"; mkCdbRow 1 "C"] /\
    In (mkCdbRow cluster (b_genome b2))
       [mkCdbRow 0 "A"; mkCdbRow 0 "B"; mkCdbRow 1 "C"] /\
    gen_nucmer_cmd "data/ANIn_files/0/A_vs_B" "/g/A.fna" "/g/B.fna" 65 true 1 "mum"
    = gen_nucmer_cmd out (location b1) (location b2) 65 true 1 "mum".
Proof.
  apply (run_anin_commands_same_cluster
           three_genomes [mkCdbRow 0 "A"; mkCdbRow 0 "B"; mkCdbRow 1 "C"] "data/").
  vm_compute. auto.
Defined.

(** ** The totals of [parse_delta] *)

Lemma parse_delta_loop_app l1 l2 a e :
  parse_delta_loop (l1 ++ l2) a e
  = bind (parse_delta_loop l1 a e) (fun r => parse_delta_loop l2 (fst r) (snd r)).
Proof.
  revert a e. induction l1 as [|line l1 IH]; intros a e; [reflexivity|].
  cbn [app parse_delta_loop]. destruct line as [|l0 l']; [reflexivity|].
  destruct (String.eqb l0 "NUCMER" || startswith ">" l0); [apply IH|].
  destruct (Nat.eqb (List.length (l0 :: l')) 7); [|apply IH].
  destruct (py_int (nth 1 (l0 :: l') "")); [|reflexivity].
  destruct (py_int (nth 0 (l0 :: l') "")); [|reflexivity].
  destruct (py_int (nth 4 (l0 :: l') "")); [|reflexivity].
  apply IH.
Qed.

Lemma parse_delta_loop_shift l a e :
  parse_delta_loop l a e
  = bind (parse_delta_loop l 0 0)
         (fun r => Ok ((a + fst r)%Z, (e + snd r)%Z)).
Proof.
  revert a e. induction l as [|line l IH]; intros a e.
  - simpl. now rewrite !Z.add_0_r.
  - cbn [parse_delta_loop]. destruct line as [|l0 l']; [reflexivity|].
    destruct (String.eqb l0 "NUCMER" || startswith ">" l0); [apply IH|].
    destruct (Nat.eqb (List.length (l0 :: l')) 7); [|apply IH].
    destruct (py_int (nth 1 (l0 :: l') "")) as [b|]; [|reflexivity].
    destruct (py_int (nth 0 (l0 :: l') "")) as [x|]; [|reflexivity].
    destruct (py_int (nth 4 (l0 :: l') "")) as [y|]; [|reflexivity].
    cbn [bind]. rewrite IH. rewrite (IH (0 + Z.abs (b - x))%Z (0 + y)%Z).
    destruct (parse_delta_loop l 0 0) as [[a' e']|]; [|reflexivity].
    cbn [bind fst snd]. f_equal. f_equal; lia.
Qed.

Lemma parse_delta_concat l1 l2 :
  parse_delta (l1 ++ l2)
  = bind (parse_delta l1) (fun r1 =>
    bind (parse_delta l2) (fun r2 =>
    Ok ((fst r1 + fst r2)%Z, (snd r1 + snd r2)%Z))).
Proof.
  unfold parse_delta. rewrite map_app, parse_delta_loop_app.
  destruct (parse_delta_loop (map split_ws l1) 0 0) as [[a e]|]; [|reflexivity].
  cbn [bind fst snd]. apply parse_delta_loop_shift.
Qed.

(** The totals are additive: the totals of two files put end to end are
    the sums of their totals, and the first failure is the failure of the
    whole. *)
Lemma parse_delta_app l1 l2 :
  parse_delta (l1 ++ l2)
  = bind (parse_delta l1) (fun r1 =>
    bind (parse_delta l2) (fun r2 =>
    Ok ((fst r1 + fst r2)%Z, (snd r1 + snd r2)%Z))).
Proof. apply parse_delta_concat. Qed.

Lemma parse_delta_loop_mono l a e a' e' :
  parse_delta_loop l a e = Ok (a', e') -> (a <= a')%Z.
Proof.
  revert a e. induction l as [|line l IH]; intros a e H.
  - inversion H; subst. lia.
  - cbn [parse_delta_loop] in H. destruct line as [|l0 l']; [discriminate|].
    destruct (String.eqb l0 "NUCMER" || startswith ">" l0); [now apply IH in H|].
    destruct (Nat.eqb (List.length (l0 :: l')) 7); [|now apply IH in H].
    destruct (py_int (nth 1 (l0 :: l') "")) as [b|]; [|discriminate].
    destruct (py_int (nth 0 (l0 :: l') "")) as [x|]; [|discriminate].
    destruct (py_int (nth 4 (l0 :: l') "")) as [y|]; [|discriminate].
    cbn [bind] in H. apply IH in H. lia.
Qed.

(** The total aligned length is never negative. *)
Lemma parse_delta_length_nonneg file_lines a e :
  parse_delta file_lines = Ok (a, e) -> (0 <= a)%Z.
Proof. apply parse_delta_loop_mono. Qed.

Lemma parse_delta_length_nonneg_witness : (0 <= 100)%Z.
Proof.
  apply (parse_delta_length_nonneg
           ["/g/A.fna /g/B.fna"; "NUCMER"; ">c1 c2 1100 1100"; "101 1 1 101 3 3 0"; "0"]
           100%Z 3%Z).
  reflexivity.
Defined.

(** A blank line makes [parse_delta] fail: [line[0]] is an [IndexError]
    unless an earlier line has already failed. *)
Lemma parse_delta_blank_line pre l post :
  split_ws l = [] ->
  parse_delta (pre ++ l :: post)
  = match parse_delta pre with
    | Ok _ => Raise IndexError
    | Raise e => Raise e
    end.
Proof.
  intro H. rewrite parse_delta_concat.
  destruct (parse_delta pre) as [r|]; [|reflexivity].
  cbn [bind]. unfold parse_delta. cbn [map]. rewrite H. reflexivity.
Qed.

Lemma parse_delta_blank_line_witness :
  parse_delta (["/g/A.fna /g/B.fna"; "NUCMER"; "1 101 1 101 3 3 0"] ++ "  " :: ["0"])
  = match parse_delta ["/g/A.fna /g/B.fna"; "NUCMER"; "1 101 1 101 3 3 0"] with
    | Ok _ => Raise IndexError
    | Raise e => Raise e
    end.
Proof. apply (parse_delta_blank_line _ "  "). reflexivity. Defined.

(** ** The rows of [process_deltadir] *)

Lemma process_deltafile_inv f org_lengths z row z' :
  process_deltafile f org_lengths z = Ok (row, z') ->
  delta_names (fst f) = Ok (querry row, reference row) /\
  parse_delta (snd f) = Ok (alignment_length row, similarity_errors row) /\
  (exists qlen slen,
     dict_get (querry row) org_lengths = Ok qlen /\ qlen <> 0%Z /\
     dict_get (reference row) org_lengths = Ok slen /\ slen <> 0%Z /\
     (querry_coverage row == inject_Z (alignment_length row) / inject_Z qlen)%Q /\
     (ref_coverage row == inject_Z (alignment_length row) / inject_Z slen)%Q) /\
  (alignment_length row = 0%Z -> ani row = 0%Q /\ z' = true) /\
  (alignment_length row <> 0%Z ->
   (ani row == 1 - inject_Z (similarity_errors row)
                   / inject_Z (alignment_length row))%Q /\ z' = z).
Proof.
  destruct f as [deltafile file_lines]. unfold process_deltafile. cbn [fst snd].
  destruct (delta_names deltafile) as [[qname sname]|]; [|discriminate].
  destruct (parse_delta file_lines) as [[tot err]|]; [|discriminate].
  cbn [bind].
  destruct (dict_get qname org_lengths) as [qlen|] eqn:Eq; [|discriminate].
  cbn [bind]. unfold float_div at 1.
  destruct (Z.eqb_spec qlen 0) as [|Hq]; [discriminate|]. cbn [bind].
  destruct (dict_get sname org_lengths) as [slen|] eqn:Es; [|discriminate].
  cbn [bind]. unfold float_div at 1.
  destruct (Z.eqb_spec slen 0) as [|Hs]; [discriminate|]. cbn [bind].
  unfold float_div.
  destruct (Z.eqb_spec tot 0) as [Ht|Ht]; intro H; inversion H; subst z' row;
    clear H;
    cbn [querry reference alignment_length similarity_errors
         querry_coverage ref_coverage ani];
    (split; [reflexivity|]); (split; [reflexivity|]);
    (split; [exists qlen, slen; do 4 (split; [assumption|]);
             split; [exact (Qred_correct (inject_Z tot / inject_Z qlen))
                    | exact (Qred_correct (inject_Z tot / inject_Z slen))]|]);
    split.
  - intros _. split; reflexivity.
  - intro C. contradiction.
  - intro C. contradiction.
  - intros _. split; [|reflexivity].
    transitivity (1 - Qred (inject_Z err / inject_Z tot))%Q;
      [exact (Qred_correct _)|].
    unfold Qminus. apply Qplus_comp; [reflexivity|].
    apply Qopp_comp. exact (Qred_correct _).
Qed.

Lemma process_deltadir_loop_rows files org_lengths :
  forall Table z Table' z',
  process_deltadir_loop files org_lengths Table z = Ok (Table', z') ->
  exists rows,
    Table' = Table ++ rows /\
    Forall2 (fun f row => exists z0 z1,
               process_deltafile f org_lengths z0 = Ok (row, z1))
            files rows.
Proof.
  induction files as [|f files IH]; intros Table z Table' z' H.
  - inversion H; subst. exists []. split; [now rewrite app_nil_r | constructor].
  - cbn [process_deltadir_loop] in H.
    destruct (process_deltafile f org_lengths z) as [[row z1]|] eqn:E; [|discriminate].
    cbn [bind] in H. apply IH in H. destruct H as (rows & -> & F).
    exists (row :: rows). split; [now rewrite <- app_assoc|].
    constructor; eauto.
Qed.

(** [process_deltadir] returns one row per delta file, in the order of
    the files: the row carries the two names of the file name and the
    totals of the file. *)
Lemma process_deltadir_one_row_per_file files org_lengths Table :
  process_deltadir files org_lengths = Ok Table ->
  Forall2 (fun f row =>
             delta_names (fst f) = Ok (querry row, reference row) /\
             parse_delta (snd f)
             = Ok (alignment_length row, similarity_errors row))
          files Table.
Proof.
  intro H. apply process_deltadir_returns_table in H. destruct H as (z & H).
  apply process_deltadir_loop_rows in H. destruct H as (rows & -> & F).
  simpl. eapply Forall2_impl; [|exact F].
  intros f row (z0 & z1 & E). apply process_deltafile_inv in E. tauto.
Qed.

Lemma process_deltadir_one_row_per_file_witness :
  Forall2 (fun f row =>
             delta_names (fst f) = Ok (querry row, reference row) /\
             parse_delta (snd f)
             = Ok (alignment_length row, similarity_errors row))
          [("out/0/A_vs_B.delta", delta_lines "30");
           ("out/0/B_vs_A.delta", delta_lines "30")]
          [mkDeltaRow "A" "B" 1000 30 (10 # 11) (10 # 11) 0.97;
           mkDeltaRow "B" "A" 1000 30 (10 # 11) (10 # 11) 0.97].
Proof.
  apply (process_deltadir_one_row_per_file _ [("A", 1100%Z); ("B", 1100%Z)]).
  reflexivity.
Defined.

Lemma process_deltadir_row_values_aux files org_lengths Table row :
  process_deltadir files org_lengths = Ok Table ->
  In row Table ->
  (alignment_length row = 0%Z -> ani row = 0%Q) /\
  (alignment_length row <> 0%Z ->
   (ani row == 1 - inject_Z (similarity_errors row)
                   / inject_Z (alignment_length row))%Q).
Proof.
  intros H Hin. apply process_deltadir_returns_table in H. destruct H as (z & H).
  apply process_deltadir_loop_rows in H. destruct H as (rows & -> & F).
  simpl in Hin. clear z.
  induction F as [|f r files rows (z0 & z1 & E) _ IH]; [contradiction|].
  destruct Hin as [-> | Hin]; [|now apply IH].
  apply process_deltafile_inv in E.
  destruct E as (_ & _ & _ & H0 & H1).
  split; [now intro Hz; apply H0 | now intro Hz; apply H1].
Qed.

(** Every returned row has coverages [length / genome length] for genome
    lengths that are known and not zero, and identity
    [1 - errors / length], or the value [0] when the length is [0]. *)
Lemma process_deltadir_row_values files org_lengths Table row :
  process_deltadir files org_lengths = Ok Table ->
  In row Table ->
  (exists qlen slen,
     dict_get (querry row) org_lengths = Ok qlen /\ qlen <> 0%Z /\
     dict_get (reference row) org_lengths = Ok slen /\ slen <> 0%Z /\
     (querry_coverage row == inject_Z (alignment_length row) / inject_Z qlen)%Q /\
     (ref_coverage row == inject_Z (alignment_length row) / inject_Z slen)%Q) /\
  (alignment_length row = 0%Z -> ani row = 0%Q) /\
  (alignment_length row <> 0%Z ->
   (ani row == 1 - inject_Z (similarity_errors row)
                   / inject_Z (alignment_length row))%Q).
Proof.
  intros H Hin. apply process_deltadir_returns_table in H. destruct H as (z & H).
  apply process_deltadir_loop_rows in H. destruct H as (rows & -> & F).
  simpl in Hin. clear z.
  induction F as [|f r files rows (z0 & z1 & E) _ IH]; [contradiction|].
  destruct Hin as [-> | Hin]; [|now apply IH].
  apply process_deltafile_inv in E.
  destruct E as (_ & _ & Hcov & H0 & H1).
  repeat split; [assumption | now intro Hz; apply H0 | now intro Hz; apply H1].
Qed.

Lemma process_deltadir_row_values_witness :
  let row := mkDeltaRow "A" "B" 1000 30 (10 # 11) (10 # 11) 0.97 in
  (exists qlen slen,
     dict_get (querry row) [("A", 1100%Z); ("B", 1100%Z)] = Ok qlen /\ qlen <> 0%Z /\
     dict_get (reference row) [("A", 1100%Z); ("B", 1100%Z)] = Ok slen /\
     slen <> 0%Z /\
     (querry_coverage row == inject_Z (alignment_length row) / inject_Z qlen)%Q /\
     (ref_coverage row == inject_Z (alignment_length row) / inject_Z slen)%Q) /\
  (alignment_length row = 0%Z -> ani row = 0%Q) /\
  (alignment_length row <> 0%Z ->
   (ani row == 1 - inject_Z (similarity_errors row)
                   / inject_Z (alignment_length row))%Q).
Proof.
  intro row.
  apply (process_deltadir_row_values
           [("out/0/A_vs_B.delta", delta_lines "30")]
           [("A", 1100%Z); ("B", 1100%Z)] [row] row).
  - reflexivity.
  - simpl. auto.
Defined.

Lemma identity_fraction_bounds err len :
  (0 <= err <= len)%Z -> len <> 0%Z ->
  (0 <= 1 - inject_Z err / inject_Z len <= 1)%Q.
Proof.
  intros (H0 & H1) Hlen.
  assert (Hpos : (0 < inject_Z len)%Q).
  { change 0%Q with (inject_Z 0). rewrite <- Zlt_Qlt. lia. }
  assert (Hx0 : (0 <= inject_Z err / inject_Z len)%Q).
  { apply Qle_shift_div_l; [assumption|]. rewrite Qmult_0_l.
    change 0%Q with (inject_Z 0). now rewrite <- Zle_Qle. }
  assert (Hx1 : (inject_Z err / inject_Z len <= 1)%Q).
  { apply Qle_shift_div_r; [assumption|]. rewrite Qmult_1_l.
    now rewrite <- Zle_Qle. }
  split; lra.
Qed.

(** The identity of a returned row lies between 0 and 1 whenever the
    error total of its file lies between 0 and the aligned length. *)
Lemma process_deltadir_identity_bounds files org_lengths Table row :
  process_deltadir files org_lengths = Ok Table ->
  In row Table ->
  (0 <= similarity_errors row <= alignment_length row)%Z ->
  (0 <= ani row <= 1)%Q.
Proof.
  intros H Hin Hb.
  destruct (process_deltadir_row_values_aux files org_lengths Table row H Hin)
    as (H0 & H1).
  destruct (Z.eq_dec (alignment_length row) 0) as [E | E].
  - rewrite (H0 E). split; discriminate.
  - rewrite (H1 E). now apply identity_fraction_bounds.
Qed.

Lemma process_deltadir_identity_bounds_witness :
  (0 <= ani (mkDeltaRow "A" "B" 1000 30 (10 # 11) (10 # 11) 0.97) <= 1)%Q.
Proof.
  apply (process_deltadir_identity_bounds
           [("out/0/A_vs_B.delta", delta_lines "30")]
           [("A", 1100%Z); ("B", 1100%Z)]
           [mkDeltaRow "A" "B" 1000 30 (10 # 11) (10 # 11) 0.97]).
  - reflexivity.
  - simpl. auto.
  - simpl. lia.
Defined.

(** ** Cluster numbers *)

Lemma cluster_database_clusters db t :
  map MASH_cluster (cluster_database db t)
  = map cr_cluster (cluster_graph (make_graph db t)).
Proof. unfold cluster_database. now rewrite map_map. Qed.

(** The cluster numbers [cluster_database] assigns are [0, 1, .., n-1],
    in this order of first appearance: no number is skipped. *)
Lemma cluster_numbers_dense db t :
  nunique (map MASH_cluster (cluster_database db t))
  = seq 0 (List.length (nunique (map MASH_cluster (cluster_database db t)))).
Proof.
  rewrite cluster_database_clusters.
  unfold cluster_graph, connected_component_subgraphs.
  rewrite cluster_graph_loop_clusters; [now rewrite length_seq|].
  destruct (connected_components_spec _ (wf_make_graph db t)) as (F & _).
  eapply Forall_impl; [|exact F]. intros c. apply is_component_nonempty.
Qed.

Lemma cluster_database_In db t c g :
  In (mkCdbRow c g) (cluster_database db t) <->
  In (mkClusterRow c g) (cluster_graph (make_graph db t)).
Proof.
  unfold cluster_database. rewrite in_map_iff. split.
  - intros ([c' g'] & E & H). now inversion E; subst.
  - intro H. now exists (mkClusterRow c g).
Qed.

Lemma make_graph_adjacent df t u v :
  adjacent (make_graph df t) u v <->
  exists r, In r df /\ Qgtb (similarity r) t = true /\
            ((genome1 r = u /\ genome2 r = v) \/ (genome1 r = v /\ genome2 r = u)).
Proof.
  rewrite make_graph_build, build_adjacent, !mash_edges_In. split.
  - intros [(r & Hr & Hp & E) | (r & Hr & Hp & E)]; inversion E; subst;
      exists r; auto.
  - intros (r & Hr & Hp & [(<- & <-) | (<- & <-)]); [left | right];
      exists r; auto.
Qed.

(** [cluster_database] is single-linkage clustering: two genomes are
    given the same cluster number exactly when a chain of rows that pass
    the threshold connects them (and the first is a node of the graph). *)
Lemma cluster_database_single_linkage db t u w :
  (exists c, In (mkCdbRow c u) (cluster_database db t) /\
             In (mkCdbRow c w) (cluster_database db t)) <->
  In u (nodes (make_graph db t)) /\ reach (make_graph db t) u w.
Proof.
  rewrite <- (same_cluster_reach _ u w (wf_make_graph db t)).
  unfold same_cluster. split; intros (c & Hu & Hw); exists c;
    split; now apply cluster_database_In.
Qed.

Lemma addn_head s ns g : exists ns', addn g (s :: ns) = s :: ns'.
Proof.
  unfold addn. destruct (smem g (s :: ns)); [now exists ns|].
  now exists (ns ++ [g]).
Qed.

Lemma add_nodes_head seeds G s ns :
  nodes G = s :: ns -> exists ns', nodes (add_nodes seeds G) = s :: ns'.
Proof.
  revert G ns. induction seeds as [|x seeds IH]; intros G ns H; [now exists ns|].
  simpl. destruct (addn_head s ns x) as (ns' & E).
  apply (IH (add_node x G) ns'). simpl. now rewrite H.
Qed.

Lemma add_edges_head E G s ns :
  nodes G = s :: ns -> exists ns', nodes (add_edges E G) = s :: ns'.
Proof.
  revert G ns. induction E as [|e E IH]; intros G ns H; [now exists ns|].
  simpl. destruct (addn_head s ns (fst e)) as (ns1 & E1).
  destruct (addn_head s ns1 (snd e)) as (ns2 & E2).
  apply (IH (add_edge (fst e) (snd e) G) ns2). simpl. now rewrite H, E1, E2.
Qed.

Lemma first_genome_in_cluster_0_aux r db t :
  In (mkCdbRow 0 (genome1 r)) (cluster_database (r :: db) t).
Proof.
  apply cluster_database_In.
  pose proof (wf_make_graph (r :: db) t) as Hwf.
  assert (Hn : exists ns, nodes (make_graph (r :: db) t) = genome1 r :: ns).
  { rewrite make_graph_build. unfold build.
    destruct (add_nodes_head (filter (fun y => negb (String.eqb (genome1 r) y))
                                     (sunique (map genome1 db)))
                             (add_node (genome1 r) empty_graph) (genome1 r) [])
      as (ns1 & E1); [reflexivity|].
    apply (add_edges_head _ _ _ ns1). exact E1. }
  destruct Hn as (ns & Hn).
  unfold cluster_graph, connected_component_subgraphs, connected_components.
  rewrite Hn. cbn [cc_loop smem mem existsb cluster_graph_loop].
  apply in_app_iff. left. apply in_map.
  apply (plain_bfs_spec _ (genome1 r) Hwf); [|constructor].
  rewrite Hn. now left.
Qed.

(** Cluster numbers follow the order of the table: the genome of the
    first row is in cluster 0. *)
Lemma first_genome_in_cluster_0 r db t :
  In (mkCdbRow 0 (genome1 r)) (cluster_database (r :: db) t).
Proof. apply first_genome_in_cluster_0_aux. Qed.

(** ** Labels and rows of the final table *)

Lemma string_of_uint_no_underscore d :
  has_char "_" (NilEmpty.string_of_uint d) = false.
Proof. induction d; simpl; auto. Qed.

Lemma string_of_nat_inj n m : string_of_nat n = string_of_nat m -> n = m.
Proof.
  unfold string_of_nat. intro H.
  assert (E : Nat.to_uint n = Nat.to_uint m).
  { pose proof (NilEmpty.usu (Nat.to_uint n)) as Hn.
    pose proof (NilEmpty.usu (Nat.to_uint m)) as Hm.
    rewrite H in Hn. congruence. }
  rewrite <- (DecimalNat.Unsigned.of_to n), <- (DecimalNat.Unsigned.of_to m).
  now rewrite E.
Qed.

Lemma split_at_underscore a a' b b' :
  has_char "_" a = false -> has_char "_" a' = false ->
  (a ++ "_" ++ b)%string = (a' ++ "_" ++ b')%string -> a = a' /\ b = b'.
Proof.
  revert a'. induction a as [|x a IH]; intros a' Ha Ha' E.
  - destruct a' as [|y a']; simpl in E.
    + inversion E. auto.
    + inversion E; subst y. simpl in Ha'. discriminate.
  - destruct a' as [|y a']; simpl in E.
    + inversion E; subst x. simpl in Ha. discriminate.
    + inversion E; subst y. simpl in Ha, Ha'.
      apply orb_false_iff in Ha, Ha'.
      destruct (IH a') as (-> & ->); tauto.
Qed.

(** The composite label is unambiguous: two labels are equal only for the
    same coarse and the same fine cluster number. *)
Lemma format_cluster_inj c f c' f' :
  format_cluster c f = format_cluster c' f' -> c = c' /\ f = f'.
Proof.
  unfold format_cluster. intro H.
  apply split_at_underscore in H; try apply string_of_uint_no_underscore.
  destruct H as (H1 & H2). split; now apply string_of_nat_inj.
Qed.

Lemma format_cluster_inj_witness : 10 = 10 /\ 3 = 3.
Proof. apply (format_cluster_inj 10 3 10 3). reflexivity. Defined.

Lemma merge_Gdb_Cdb_In Gdb Cdb r :
  In r (merge_Gdb_Cdb Gdb Cdb) <->
  In (f_genome r, ANIn_cluster r) Gdb /\
  In (mkCdbRow (f_MASH_cluster r) (f_genome r)) Cdb.
Proof.
  unfold merge_Gdb_Cdb. rewrite in_flat_map. split.
  - intros ([g l] & Hg & H). apply in_map_iff in H. destruct H as ([c g'] & <- & H).
    apply filter_In in H. simpl in *. destruct H as (H & E).
    apply String.eqb_eq in E. subst g'. auto.
  - intros (Hg & Hc). exists (f_genome r, ANIn_cluster r). split; [assumption|].
    apply in_map_iff. exists (mkCdbRow (f_MASH_cluster r) (f_genome r)).
    split; [now destruct r|].
    apply filter_In. split; [assumption|]. simpl. apply String.eqb_refl.
Qed.

Lemma anin_cluster_rows_label Cdb Ndb ANIn cov cluster g :
  In g (anin_cluster_rows Cdb Ndb ANIn cov cluster) ->
  exists clust, snd g = format_cluster cluster clust.
Proof.
  unfold anin_cluster_rows. intro H. apply in_flat_map in H.
  destruct H as (clust & _ & H). apply in_map_iff in H.
  destruct H as (x & <- & _). now exists clust.
Qed.

(** The final table never holds a genome that is not in the MASH
    assignment: every row joins a row of Cdb with a label made of a MASH
    cluster number of Cdb and a fine cluster number. *)
Lemma cluster_anin_database_rows Cdb Ndb ANIn cov Final r :
  cluster_anin_database Cdb Ndb ANIn cov = Ok Final ->
  In r Final ->
  In (mkCdbRow (f_MASH_cluster r) (f_genome r)) Cdb /\
  exists c f, In c (map MASH_cluster Cdb) /\ ANIn_cluster r = format_cluster c f.
Proof.
  unfold cluster_anin_database. intros H Hr.
  remember (nunique (map MASH_cluster Cdb)) as clusters eqn:Ecl.
  assert (Hcl : forall c, In c clusters -> In c (map MASH_cluster Cdb))
    by (intros c Hc; subst clusters; now apply nunique_In).
  clear Ecl.
  destruct clusters as [|c0 clusters'].
  - simpl in H. inversion H; subst. contradiction.
  - destruct Ndb as [rows|]; [|discriminate].
    cbn [bind] in H. inversion H; subst Final. clear H.
    apply merge_Gdb_Cdb_In in Hr. destruct Hr as (Hg & Hc).
    split; [assumption|].
    change (anin_cluster_rows Cdb rows ANIn cov c0
            ++ flat_map (anin_cluster_rows Cdb rows ANIn cov) clusters')
      with (flat_map (anin_cluster_rows Cdb rows ANIn cov) (c0 :: clusters')) in Hg.
    apply in_flat_map in Hg. destruct Hg as (c & Hc' & Hg).
    apply anin_cluster_rows_label in Hg. destruct Hg as (f & Hf).
    exists c, f. split; [now apply Hcl | exact Hf].
Qed.

Lemma cluster_anin_database_rows_witness :
  let r := mkFinalRow "B" "0_1" 0 in
  In (mkCdbRow (f_MASH_cluster r) (f_genome r))
     [mkCdbRow 0 "A"; mkCdbRow 0 "B"] /\
  exists c f, In c (map MASH_cluster [mkCdbRow 0 "A"; mkCdbRow 0 "B"]) /\
              ANIn_cluster r = format_cluster c f.
Proof.
  intro r.
  apply (cluster_anin_database_rows
           [mkCdbRow 0 "A"; mkCdbRow 0 "B"]
           (Some [mkNdbRow (mkDeltaRow "A" "A" 1000 0 (10 # 11) (10 # 11) 1) 0;
                  mkNdbRow (mkDeltaRow "B" "B" 1000 0 (10 # 11) (10 # 11) 1) 0])
           0.99 0.5
           [mkFinalRow "A" "0_0" 0; mkFinalRow "B" "0_1" 0] r).
  - reflexivity.
  - simpl. auto.
Defined.

(** ** Genome names that do not match *)

Lemma merge_Bdb_Cdb_no_match Bdb Cdb :
  forallb (fun b => negb (smem (b_genome b) (map genome Cdb))) Bdb = true ->
  merge_Bdb_Cdb Bdb Cdb = [].
Proof.
  intro H. unfold merge_Bdb_Cdb. apply flat_map_nil. intros b Hb.
  rewrite forallb_forall in H. specialize (H b Hb).
  apply negb_true_iff, smem_not_In in H.
  now rewrite (filter_key_absent String.eqb String.eqb_eq genome Cdb (b_genome b) H).
Qed.

Lemma cluster_database_nonempty r db t : cluster_database (r :: db) t <> [].
Proof.
  intro E. pose proof (first_genome_in_cluster_0_aux r db t) as H.
  rewrite E in H. contradiction.
Qed.

Lemma names_mismatch_raises gen W Bdb data_folder MASH_ANI ANIn dry :
  mash_table_tsv W <> [] ->
  forallb (fun b =>
             negb (smem (b_genome b)
                        (map genome
                             (cluster_database
                                (all_vs_all_MASH W Bdb data_folder dry) MASH_ANI))))
          Bdb = true ->
  cluster_genomes gen W Bdb data_folder MASH_ANI ANIn dry false false
  = Raise (KeyError "reference").
Proof.
  intros Hne Hno. unfold cluster_genomes. cbn [negb bind].
  set (Cdb := cluster_database (all_vs_all_MASH W Bdb data_folder dry) MASH_ANI) in *.
  unfold run_anin_on_clusters. rewrite (merge_Bdb_Cdb_no_match Bdb Cdb Hno).
  cbn [fold_left map nunique unique run_anin_loop bind].
  unfold cluster_anin_database.
  assert (Hc : Cdb <> []).
  { subst Cdb. unfold all_vs_all_MASH.
    destruct (mash_table_tsv W) as [|x l]; [congruence|].
    cbn [map]. apply cluster_database_nonempty. }
  destruct Cdb as [|c0 Cdb']; [congruence|]. reflexivity.
Qed.

(** When no genome name of Bdb is a genome name of the MASH table (they
    are derived differently from the file names), no delta directory is
    parsed, [Ndb] stays the frame without columns and the run ends in
    [KeyError: 'reference'], provided the MASH table has a row. *)
Lemma cluster_genomes_names_mismatch gen W Bdb data_folder MASH_ANI ANIn dry :
  mash_table_tsv W <> [] ->
  forallb (fun b =>
             negb (smem (b_genome b)
                        (map genome
                             (cluster_database
                                (all_vs_all_MASH W Bdb data_folder dry) MASH_ANI))))
          Bdb = true ->
  cluster_genomes gen W Bdb data_folder MASH_ANI ANIn dry false false
  = Raise (KeyError "reference").
Proof. apply names_mismatch_raises. Qed.

Lemma cluster_genomes_names_mismatch_witness :
  cluster_genomes gen_nomash_cdb_spec (complete_world "5")
    [mkBdbRow "A.v1" "/g/A.v1.fna"; mkBdbRow "B.v1" "/g/B.v1.fna"]
    "data/" 0.9 0.99 false false false
  = Raise (KeyError "reference").
Proof.
  apply (cluster_genomes_names_mismatch gen_nomash_cdb_spec (complete_world "5")).
  - discriminate.
  - reflexivity.
Defined.

(** ** Loading the genome list *)

Lemma split_sep_aux_nonempty sep k s cur : split_sep_aux sep k s cur <> [].
Proof.
  revert k cur. induction s as [|c s IH]; intros k cur; [discriminate|].
  cbn [split_sep_aux]. destruct k; [|apply IH].
  destruct (String.prefix sep (String c s)); [discriminate | apply IH].
Qed.

Lemma concat_cons sep x l :
  l <> [] -> String.concat sep (x :: l) = (x ++ sep ++ String.concat sep l)%string.
Proof. destruct l; [congruence | reflexivity]. Qed.

(** Joining the pieces of [split('.')] with dots gives the string back. *)
Lemma split_join_dot s cur :
  String.concat "." (split_sep_aux "." 0 s cur) = (cur ++ s)%string.
Proof.
  revert cur. induction s as [|c s IH]; intro cur.
  - simpl. now rewrite string_app_nil_r.
  - rewrite split_sep_aux_0, prefix_dot.
    destruct (Ascii.eqb_spec c ".") as [-> | Hc].
    + rewrite concat_cons by apply split_sep_aux_nonempty.
      change (String.length "." - 1) with 0. now rewrite IH.
    + rewrite IH. apply snoc_app.
Qed.

Lemma split_dot_last a ext cur :
  has_char "." ext = false ->
  split_sep_aux "." 0 (a ++ String "." ext) cur
  = split_sep_aux "." 0 a cur ++ [ext].
Proof.
  intro He. revert cur. induction a as [|c a IH]; intro cur.
  - cbn [append]. rewrite split_sep_aux_0, prefix_dot, Ascii.eqb_refl.
    change (String.length "." - 1) with 0.
    now rewrite (split_dot_none ext "" He).
  - cbn [append]. rewrite !split_sep_aux_0, !prefix_dot.
    destruct (Ascii.eqb c "."); rewrite IH; reflexivity.
Qed.

Lemma load_genome_name_basename genome a ext :
  basename genome = (a ++ String "." ext)%string -> has_char "." ext = false ->
  load_genome_name genome = a.
Proof.
  intros Hb He. unfold load_genome_name, split_sep.
  rewrite Hb, split_dot_last, removelast_last by assumption.
  apply split_join_dot.
Qed.

(** [load_genomes] names a genome by its file name without the last
    extension: dots inside the name are kept. *)
Lemma load_genome_name_path dir a ext :
  has_char "/" a = false -> has_char "/" ext = false -> has_char "." ext = false ->
  load_genome_name (dir ++ "/" ++ a ++ "." ++ ext) = a.
Proof.
  intros Ha Hs Hd. apply (load_genome_name_basename _ a ext); [|assumption].
  apply basename_dir. rewrite has_char_app, Ha. simpl. exact Hs.
Qed.

Lemma load_genome_name_path_witness :
  load_genome_name ("/data/genomes" ++ "/" ++ "Escherichia_coli.v2" ++ "." ++ "fna")
  = "Escherichia_coli.v2".
Proof.
  apply (load_genome_name_path "/data/genomes" "Escherichia_coli.v2" "fna");
    reflexivity.
Defined.

(** A file name without a dot gives the empty genome name. *)
Lemma load_genome_name_no_extension genome :
  has_char "." (basename genome) = false -> load_genome_name genome = "".
Proof.
  intro H. unfold load_genome_name, split_sep.
  now rewrite (split_dot_none _ "" H).
Qed.

Lemma load_genome_name_no_extension_witness :
  load_genome_name "/data/genomes/Escherichia_coli_Sakai" = "".
Proof. apply load_genome_name_no_extension. reflexivity. Defined.

(** For a file name with exactly one dot, the name [load_genomes] gives
    the genome is the name the MASH and NUCmer steps derive from the
    path. *)
Lemma genome_names_agree dir name ext :
  has_char "/" name = false -> has_char "." name = false ->
  has_char "/" ext = false -> has_char "." ext = false ->
  load_genome_name (dir ++ "/" ++ name ++ "." ++ ext)
  = get_genome_name_from_fasta (dir ++ "/" ++ name ++ "." ++ ext).
Proof.
  intros Hs Hd Hes Hed.
  rewrite (load_genome_name_basename _ name ext); [| |assumption].
  - unfold get_genome_name_from_fasta. rewrite basename_dir.
    + unfold split_sep. change (name ++ "." ++ ext)%string
        with (name ++ String "." ext)%string.
      now rewrite split_dot_cons.
    + rewrite has_char_app, Hs. simpl. exact Hes.
  - apply basename_dir. rewrite has_char_app, Hs. simpl. exact Hes.
Qed.

Lemma genome_names_agree_witness :
  load_genome_name ("/data/genomes" ++ "/" ++ "Escherichia_coli_Sakai" ++ "." ++ "fna")
  = get_genome_name_from_fasta
      ("/data/genomes" ++ "/" ++ "Escherichia_coli_Sakai" ++ "." ++ "fna").
Proof.
  apply (genome_names_agree "/data/genomes" "Escherichia_coli_Sakai" "fna");
    reflexivity.
Defined.

Lemma load_genomes_returns isfile genome_list Bdb :
  load_genomes isfile genome_list = Returns Bdb <->
  forallb isfile genome_list = true /\
  Bdb = map (fun genome => mkBdbRow (load_genome_name genome) genome) genome_list.
Proof.
  revert Bdb. induction genome_list as [|g l IH]; intro Bdb; simpl.
  - split; [intro H; inversion H; auto | intros (_ & ->); reflexivity].
  - destruct (isfile g); simpl.
    + destruct (load_genomes isfile l) as [T| |e].
      * split.
        -- intro H. inversion H; subst. destruct (proj1 (IH T) eq_refl) as (H1 & H2).
           split; [assumption | now rewrite <- H2].
        -- intros (H1 & ->). f_equal. f_equal.
           destruct (proj1 (IH T) eq_refl) as (_ & H2). now symmetry.
      * split; [discriminate|]. intros (H1 & _).
        specialize (proj2 (IH _) (conj H1 eq_refl)). discriminate.
      * split; [discriminate|]. intros (H1 & _).
        specialize (proj2 (IH _) (conj H1 eq_refl)). discriminate.
    + split; [discriminate | intros (H & _); discriminate].
Qed.

(** [parse_arguments] returns a table only when a genome list is given,
    the work directory holds no Bdb and every path is a file; the table
    then has one row per path, in order, with the path as location. When
    no list is given it never returns: the assertion fails, or [Bdb] is
    unbound at [return]. *)
Lemma parse_arguments_returns isfile genomes hasDb Bdb :
  parse_arguments isfile genomes hasDb = Returns Bdb <->
  exists genome_list,
    genomes = Some genome_list /\ hasDb = false /\
    forallb isfile genome_list = true /\
    Bdb = map (fun genome => mkBdbRow (load_genome_name genome) genome) genome_list.
Proof.
  unfold parse_arguments. destruct genomes as [gl|].
  - destruct hasDb; simpl.
    + split; [discriminate | intros (l & _ & H & _); discriminate].
    + rewrite load_genomes_returns. split.
      * intros (H1 & H2). exists gl. auto.
      * intros (l & E & _ & H1 & H2). inversion E; subst. auto.
  - split.
    + destruct hasDb; discriminate.
    + intros (l & E & _). discriminate.
Qed.

(** ** Genome names with a dot *)

Lemma all_vs_all_MASH_names W Bdb data_folder dry r :
  In r (all_vs_all_MASH W Bdb data_folder dry) ->
  has_char "." (genome1 r) = false /\ has_char "." (genome2 r) = false.
Proof.
  unfold all_vs_all_MASH. intro H. apply in_map_iff in H.
  destruct H as ([[[[g1 g2] d] p] k] & <- & _). simpl.
  split; apply genome_name_chars.
Qed.

Lemma MASH_assignment_names W Bdb data_folder dry t g :
  In g (map genome (cluster_database (all_vs_all_MASH W Bdb data_folder dry) t)) ->
  has_char "." g = false.
Proof.
  unfold cluster_database. rewrite map_map. cbn [genome].
  rewrite (cluster_graph_genome_In _ g (wf_make_graph _ _)), make_graph_nodes.
  intros [H | (r & Hr & _ & <-)].
  - apply in_map_iff in H. destruct H as (r & <- & Hr).
    now apply (all_vs_all_MASH_names W Bdb data_folder dry r).
  - now apply (all_vs_all_MASH_names W Bdb data_folder dry r).
Qed.

(** The genome names of the MASH table never hold a dot. When every
    genome name of Bdb does (as [load_genomes] names a file that has a
    dot before its extension), the run ends in [KeyError: 'reference']. *)
Lemma cluster_genomes_dotted_names gen W Bdb data_folder MASH_ANI ANIn dry :
  mash_table_tsv W <> [] ->
  forallb (fun b => has_char "." (b_genome b)) Bdb = true ->
  cluster_genomes gen W Bdb data_folder MASH_ANI ANIn dry false false
  = Raise (KeyError "reference").
Proof.
  intros Hne Hdot. apply names_mismatch_raises; [assumption|].
  apply forallb_forall. intros b Hb. rewrite forallb_forall in Hdot.
  apply negb_true_iff, smem_not_In. intro Hin.
  apply MASH_assignment_names in Hin. rewrite (Hdot b Hb) in Hin. discriminate.
Qed.

Lemma cluster_genomes_dotted_names_witness :
  cluster_genomes gen_nomash_cdb_spec (complete_world "5")
    [mkBdbRow "A.v1" "/g/A.v1.fna"; mkBdbRow "B.v1" "/g/B.v1.fna"]
    "data/" 0.9 0.95 false false false
  = Raise (KeyError "reference").
Proof.
  apply (cluster_genomes_dotted_names gen_nomash_cdb_spec (complete_world "5")).
  - discriminate.
  - reflexivity.
Defined.
